(** * TLE92104 SPI socket server: register file, pipeline and dispatcher

    Shallow embedding of [tools/spi_socket_server.py].

    - Python integers are [Z]; [>>], [<<], [&], [|] and [^] are
      [Z.shiftr], [Z.shiftl], [Z.land], [Z.lor] and [Z.lxor].
    - [bytes] / [bytearray] values are [list byte]; a payload that the
      connection loop may leave as [None] is an [option (list byte)].
    - The [registers] dictionary and the [spi_devices] dictionary are
      [gmap]s keyed by [Z].
    - Mutation of [self] is explicit state passing; a raised exception
      ([struct.error], [ValueError]) is [None] in the option monad.
    - The client socket is a record of the bytes still to come, the way
      the transport fragments them, and the bytes sent; a connection adds
      to it which calls of [recv] and [sendall] raise. Loops that wait
      for the socket run on fuel that is shown to be enough.
    - Console output ([print]), the listening socket and the command
      line are not part of the model. *)

From Stdlib Require Import ZArith List Lia.
From Stdlib.Strings Require Import Byte.
From stdpp Require Import gmap.

Local Open Scope Z_scope.

Abbreviation bytes := (list byte).

(** ** Byte helpers *)

(** [payload[i]] : indexing a [bytes] object gives an int in [0, 256). *)
Definition byte_to_Z (b : byte) : Z := Z.of_N (Byte.to_N b).

(** [bytearray.append(v)] : raises [ValueError] unless [0 <= v < 256]. *)
Definition bytearray_append (response : bytes) (v : Z) : option bytes :=
  if (0 <=? v) && (v <? 256)
  then b ← Byte.of_N (Z.to_N v); Some (response ++ [b])
  else None.

(** [bytes(n)] : [n] zero bytes ([n] is never negative where it is used). *)
Definition bytes_zero (n : Z) : bytes := replicate (Z.to_nat n) x00.

(** Truth value of a payload: [None] and [b''] are both false. *)
Definition truthy (payload : option bytes) : bool :=
  match payload with
  | Some (_ :: _) => true
  | _ => false
  end.

(** [struct.unpack('>H', b)[0]] : needs exactly two bytes. *)
Definition unpack_H_be (b : bytes) : option Z :=
  match b with
  | [b0; b1] => Some (Z.lor (Z.shiftl (byte_to_Z b0) 8) (byte_to_Z b1))
  | _ => None
  end.

(** [struct.unpack('<IBBB', b)] : needs exactly seven bytes. *)
Definition unpack_IBBB_le (b : bytes) : option (Z * Z * Z * Z) :=
  match b with
  | [b0; b1; b2; b3; b4; b5; b6] =>
      Some (Z.lor (byte_to_Z b0)
              (Z.lor (Z.shiftl (byte_to_Z b1) 8)
                 (Z.lor (Z.shiftl (byte_to_Z b2) 16)
                    (Z.shiftl (byte_to_Z b3) 24))),
            byte_to_Z b4, byte_to_Z b5, byte_to_Z b6)
  | _ => None
  end.

(** [struct.pack('<BB', x, y)] : each argument must fit in one byte. *)
Definition pack_BB_le (x y : Z) : option bytes :=
  r ← bytearray_append [] x; bytearray_append r y.

(** ** Message types *)

Module SpiMessageType.
Definition INIT : Z := 0x01.
Definition DEINIT : Z := 0x02.
Definition TRANSFER : Z := 0x03.
Definition SEND : Z := 0x04.
Definition RECEIVE : Z := 0x05.
Definition SET_CONFIG : Z := 0x06.
Definition GET_STATUS : Z := 0x07.
Definition RESPONSE : Z := 0x80.
End SpiMessageType.

(** ** The simulated device *)

Module TLE92104Simulator.

Definition REG_CTRL1 : Z := 0x00.
Definition REG_CTRL2 : Z := 0x01.
Definition REG_CTRL3 : Z := 0x02.
Definition REG_CFG : Z := 0x03.
Definition REG_DIAG : Z := 0x04.
Definition REG_WDG : Z := 0x05.
Definition REG_ICR : Z := 0x06.
Definition REG_HWCR : Z := 0x07.
Definition REG_DEVID : Z := 0x08.

Definition DEVICE_ID : Z := 0x5A.

Definition CMD_SHIFT : Z := 14.
Definition ADDR_SHIFT : Z := 10.
Definition DATA_SHIFT : Z := 2.
Definition PARITY_BIT : Z := 1.

Record t := mk {
  registers : gmap Z Z;
  wdg_count : Z;
  last_response_data : Z;
  last_response_addr : Z
}.

(** [__init__] *)
Definition init : t :=
  {| registers :=
       <[REG_CTRL1 := 0x00]> (<[REG_CTRL2 := 0x00]> (<[REG_CTRL3 := 0x00]>
       (<[REG_CFG := 0x00]> (<[REG_DIAG := 0x00]> (<[REG_WDG := 0x00]>
       (<[REG_ICR := 0x00]> (<[REG_HWCR := 0x00]>
       (<[REG_DEVID := DEVICE_ID]> ∅))))))));
     wdg_count := 0;
     last_response_data := 0x00;
     last_response_addr := 0x00 |}.

(** [self.registers.get(addr, 0x00)] *)
Definition registers_get (regs : gmap Z Z) (addr : Z) : Z :=
  default 0x00 (regs !! addr).

(** The parity loop: [for _ in range(14): parity ^= temp & 1; temp >>= 1]. *)
Fixpoint parity_loop (n : nat) (parity temp : Z) : Z :=
  match n with
  | O => parity
  | S n' => parity_loop n' (Z.lxor parity (Z.land temp 1)) (Z.shiftr temp 1)
  end.

(** The tail of [process_spi_frame]: building the response frame. *)
Definition build_response (response_addr response_data : Z) : Z :=
  let resp_frame :=
    Z.lor (Z.shiftl (Z.land response_addr 0x0F) ADDR_SHIFT)
          (Z.shiftl (Z.land response_data 0xFF) DATA_SHIFT) in
  let temp := Z.land (Z.shiftr resp_frame 2) 0x3FFF in
  let parity := parity_loop 14 0 temp in
  Z.lor resp_frame (Z.shiftl parity PARITY_BIT).

(** [process_spi_frame] : the new simulator and the returned frame. *)
Definition process_spi_frame (self : t) (frame_16bit : Z) : t * Z :=
  let cmd := Z.land (Z.shiftr frame_16bit CMD_SHIFT) 0x03 in
  let addr := Z.land (Z.shiftr frame_16bit ADDR_SHIFT) 0x0F in
  let data := Z.land (Z.shiftr frame_16bit DATA_SHIFT) 0xFF in
  let response_data := last_response_data self in
  let response_addr := last_response_addr self in
  let self' :=
    if cmd =? 0x00 then
      {| registers := registers self;
         wdg_count := wdg_count self;
         last_response_data := registers_get (registers self) addr;
         last_response_addr := addr |}
    else if cmd =? 0x01 then
      let '(regs, wdg) :=
        if negb (addr =? REG_DEVID) then
          (<[addr := data]> (registers self),
           if addr =? REG_WDG then wdg_count self + 1 else wdg_count self)
        else (registers self, wdg_count self) in
      {| registers := regs;
         wdg_count := wdg;
         last_response_data := registers_get regs addr;
         last_response_addr := addr |}
    else
      {| registers := registers self;
         wdg_count := wdg_count self;
         last_response_data := 0x00;
         last_response_addr := 0x00 |} in
  (self', build_response response_addr response_data).

End TLE92104Simulator.

(** ** The socket server's message handling *)

Module SpiSocketServer.

Import SpiMessageType.

(** The per-device dictionary stored in [spi_devices]. *)
Record DeviceConfig := mkConfig {
  baudrate : Z;
  mode : Z;
  bit_order : Z;
  data_bits : Z;
  initialized : bool
}.

(** The fields of the server that message handling reads or writes. *)
Record t := mk {
  tle92104 : TLE92104Simulator.t;
  spi_devices : gmap Z DeviceConfig
}.

(** [__init__] *)
Definition init : t :=
  {| tle92104 := TLE92104Simulator.init; spi_devices := ∅ |}.

(** The loop of [process_spi_transfer]:
    [for i in range(0, len(payload) - 1, 2)], a trailing odd byte is
    not visited. *)
Fixpoint transfer_loop (sim : TLE92104Simulator.t) (response payload : bytes)
    : option (TLE92104Simulator.t * bytes) :=
  match payload with
  | b0 :: b1 :: rest =>
      let tx_frame := Z.lor (Z.shiftl (byte_to_Z b0) 8) (byte_to_Z b1) in
      let '(sim', rx_frame) := TLE92104Simulator.process_spi_frame sim tx_frame in
      r1 ← bytearray_append response (Z.land (Z.shiftr rx_frame 8) 0xFF);
      r2 ← bytearray_append r1 (Z.land rx_frame 0xFF);
      transfer_loop sim' r2 rest
  | _ => Some (sim, response)
  end.

(** [process_spi_transfer] *)
Definition process_spi_transfer (self : t) (payload : option bytes)
    : option (t * bytes) :=
  match payload with
  | None => Some (self, [])
  | Some p =>
      if negb (truthy payload) || (length p <? 2)%nat then
        Some (self, if truthy payload then p else [])
      else
        '(sim, response) ← transfer_loop (tle92104 self) [] p;
        response' ←
          (if negb (Z.of_nat (length p) mod 2 =? 0)
           then bytearray_append response 0x00
           else Some response);
        Some ({| tle92104 := sim; spi_devices := spi_devices self |}, response')
  end.

(** [process_message]. [p] stands for the payload where the code takes
    [len(payload)] or slices it, which it does only behind the
    [payload and ...] test. *)
Definition process_message (self : t) (msg_type device_id : Z)
    (payload : option bytes) : option (t * bytes) :=
  let p := default [] payload in
  if msg_type =? INIT then
    devs ←
      (if truthy payload && (7 <=? length p)%nat then
         '(baudrate, mode, bit_order, data_bits) ← unpack_IBBB_le (take 7 p);
         Some (<[device_id := mkConfig baudrate mode bit_order data_bits true]>
                 (spi_devices self))
       else Some (spi_devices self));
    Some ({| tle92104 := TLE92104Simulator.init; spi_devices := devs |}, [])
  else if msg_type =? DEINIT then
    Some ({| tle92104 := tle92104 self;
             spi_devices :=
               if decide (is_Some (spi_devices self !! device_id))
               then delete device_id (spi_devices self)
               else spi_devices self |}, [])
  else if msg_type =? TRANSFER then
    process_spi_transfer self payload
  else if msg_type =? SEND then
    if truthy payload then
      '(self', _) ← process_spi_transfer self payload; Some (self', [])
    else Some (self, [])
  else if msg_type =? RECEIVE then
    if truthy payload && (2 <=? length p)%nat then
      requested_length ← unpack_H_be (take 2 p);
      Some (self, bytes_zero requested_length)
    else Some (self, [])
  else if msg_type =? SET_CONFIG then
    devs ←
      (if truthy payload && (7 <=? length p)%nat then
         '(baudrate, mode, bit_order, data_bits) ← unpack_IBBB_le (take 7 p);
         Some (match spi_devices self !! device_id with
               | Some cfg =>
                   <[device_id :=
                       mkConfig baudrate mode bit_order data_bits (initialized cfg)]>
                     (spi_devices self)
               | None => spi_devices self
               end)
       else Some (spi_devices self));
    Some ({| tle92104 := tle92104 self; spi_devices := devs |}, [])
  else if msg_type =? GET_STATUS then
    r ← pack_BB_le 1 0; Some (self, r)
  else
    Some (self, []).

End SpiSocketServer.

(** ** Drivers used to state the properties *)

Import TLE92104Simulator.

(** The three fields [process_spi_frame] reads out of a frame
    (its first three assignments). *)
Definition cmd_of (frame_16bit : Z) : Z := Z.land (Z.shiftr frame_16bit CMD_SHIFT) 0x03.
Definition addr_of (frame_16bit : Z) : Z := Z.land (Z.shiftr frame_16bit ADDR_SHIFT) 0x0F.
Definition data_of (frame_16bit : Z) : Z := Z.land (Z.shiftr frame_16bit DATA_SHIFT) 0xFF.

(** The (addr, data) pair carried by a frame. *)
Definition decode (frame_16bit : Z) : Z * Z := (addr_of frame_16bit, data_of frame_16bit).

(** The pending response a simulator holds between two calls. *)
Definition pending (s : TLE92104Simulator.t) : Z * Z :=
  (last_response_addr s, last_response_data s).

(** Feeding a list of frames, one call of [process_spi_frame] each:
    the final simulator and the returned frames, in order. *)
Fixpoint run_frames (s : TLE92104Simulator.t) (frames : list Z)
    : TLE92104Simulator.t * list Z :=
  match frames with
  | [] => (s, [])
  | f :: rest =>
      let '(s', r) := process_spi_frame s f in
      let '(s'', rs) := run_frames s' rest in
      (s'', r :: rs)
  end.

Definition state_after (s : TLE92104Simulator.t) (frames : list Z) : TLE92104Simulator.t :=
  fst (run_frames s frames).

Definition responses (s : TLE92104Simulator.t) (frames : list Z) : list Z :=
  snd (run_frames s frames).

(** The body of the [handle_client] loop on messages that are already
    framed: [(msg_type, device_id, payload)] in, reply payloads out. *)
Fixpoint serve (self : SpiSocketServer.t) (msgs : list (Z * Z * option bytes))
    : option (SpiSocketServer.t * list bytes) :=
  match msgs with
  | [] => Some (self, [])
  | (msg_type, device_id, payload) :: rest =>
      '(self', response) ← SpiSocketServer.process_message self msg_type device_id payload;
      '(self'', rs) ← serve self' rest;
      Some (self'', response :: rs)
  end.

(** Number of set bits of [x] at positions [lo, lo + n). *)
Definition popcount (x lo : Z) (n : nat) : nat :=
  foldr (fun i acc => ((if Z.testbit x i then 1 else 0) + acc)%nat) 0%nat
        (seqZ lo (Z.of_nat n)).

(** XOR of the bits of [x] at positions [lo, lo + n). *)
Definition xor_bits (x lo : Z) (n : nat) : bool :=
  foldr (fun i acc => xorb (Z.testbit x i) acc) false (seqZ lo (Z.of_nat n)).

(** Two frames agree on bits 15..2. *)
Definition agree_15_2 (f1 f2 : Z) : Prop :=
  forall i, 2 <= i <= 15 -> Z.testbit f1 i = Z.testbit f2 i.

(** The invariant of every simulator reachable from [init]: the pending
    pair and every stored register fit their fields. *)
Definition wf (s : TLE92104Simulator.t) : Prop :=
  0 <= last_response_addr s < 16 /\
  0 <= last_response_data s < 256 /\
  map_Forall (fun _ v => 0 <= v < 256) (registers s).

(** Checking a decidable property on the whole 16 x 256 grid of
    (addr, data) field values. *)
Definition grid_check (P : Z -> Z -> bool) : bool :=
  forallb (fun a => forallb (fun d => P a d) (seqZ 0 256)) (seqZ 0 16).

(** What a well-formed response frame looks like, as a boolean test. *)
Definition response_shape (r : Z) : bool :=
  Nat.even (popcount r 1 15)
  && Bool.eqb (Z.testbit r 1) (xor_bits r 2 14)
  && (cmd_of r =? 0)
  && negb (Z.testbit r 0)
  && (0 <=? r) && (r <? 65536).

(** The data byte of the last WRITE frame of [frames] aimed at [addr],
    if there is one. *)
Fixpoint last_write (addr : Z) (frames : list Z) : option Z :=
  match frames with
  | [] => None
  | f :: rest =>
      match last_write addr rest with
      | Some d => Some d
      | None =>
          if (cmd_of f =? 0x01) && (addr_of f =? addr) then Some (data_of f) else None
      end
  end.

(** How many frames of [frames] are WRITEs aimed at the watchdog register. *)
Definition wdg_writes (frames : list Z) : Z :=
  Z.of_nat (length (List.filter (fun f => (cmd_of f =? 0x01) && (addr_of f =? REG_WDG)) frames)).

(** The (addr, data) a command frame produces as its own result on a
    simulator that was fresh before the frames [before] were fed: a READ
    gives the address and the value found there (0x5A at address 0x08,
    otherwise the data byte of the last WRITE to the address, or 0x00 if
    there was none); a WRITE gives the address and the value stored
    there after it (the data byte written, or 0x5A at the read-only
    address 0x08); any other command gives (0, 0). *)
Definition immediate_result (before : list Z) (f : Z) : Z * Z :=
  if cmd_of f =? 0x00 then
    (addr_of f,
     if addr_of f =? REG_DEVID then DEVICE_ID
     else default 0x00 (last_write (addr_of f) before))
  else if cmd_of f =? 0x01 then
    (addr_of f, if addr_of f =? REG_DEVID then DEVICE_ID else data_of f)
  else (0x00, 0x00).

(** The 16-bit frames a transfer payload is cut into: two bytes per
    frame, high byte first; a trailing odd byte belongs to no frame. *)
Fixpoint frames_of (payload : bytes) : list Z :=
  match payload with
  | b0 :: b1 :: rest => Z.lor (Z.shiftl (byte_to_Z b0) 8) (byte_to_Z b1) :: frames_of rest
  | _ => []
  end.

(** The integer [v] as one byte, when it is one. *)
Definition byte_of_Z (v : Z) : option byte :=
  if (0 <=? v) && (v <? 256) then Byte.of_N (Z.to_N v) else None.

(** Frames as bytes, high byte first. *)
Fixpoint frames_bytes (frames : list Z) : option bytes :=
  match frames with
  | [] => Some []
  | r :: rest =>
      hi ← byte_of_Z (Z.land (Z.shiftr r 8) 0xFF);
      lo ← byte_of_Z (Z.land r 0xFF);
      tl ← frames_bytes rest;
      Some (hi :: lo :: tl)
  end.

(** ** The transport: headers, the client socket and the connection loop *)

(** [struct.pack('<BBHI', a, b, h, i)] : raises [struct.error] when an
    argument does not fit its field. *)
Definition pack_BBHI_le (a b h i : Z) : option bytes :=
  if (0 <=? a) && (a <? 256) && (0 <=? b) && (b <? 256)
     && (0 <=? h) && (h <? 65536) && (0 <=? i) && (i <? 4294967296)
  then
    a0 ← byte_of_Z a;
    b0 ← byte_of_Z b;
    h0 ← byte_of_Z (Z.land h 0xFF);
    h1 ← byte_of_Z (Z.land (Z.shiftr h 8) 0xFF);
    i0 ← byte_of_Z (Z.land i 0xFF);
    i1 ← byte_of_Z (Z.land (Z.shiftr i 8) 0xFF);
    i2 ← byte_of_Z (Z.land (Z.shiftr i 16) 0xFF);
    i3 ← byte_of_Z (Z.land (Z.shiftr i 24) 0xFF);
    Some [a0; b0; h0; h1; i0; i1; i2; i3]
  else None.

(** [struct.unpack('<BBHI', b)] : needs exactly eight bytes. *)
Definition unpack_BBHI_le (b : bytes) : option (Z * Z * Z * Z) :=
  match b with
  | [a0; b0; h0; h1; i0; i1; i2; i3] =>
      Some (byte_to_Z a0, byte_to_Z b0,
            Z.lor (byte_to_Z h0) (Z.shiftl (byte_to_Z h1) 8),
            Z.lor (byte_to_Z i0)
              (Z.lor (Z.shiftl (byte_to_Z i1) 8)
                 (Z.lor (Z.shiftl (byte_to_Z i2) 16)
                    (Z.shiftl (byte_to_Z i3) 24))))
  | _ => None
  end.

(** The connected client socket, as the loop sees it: [inbox] holds the
    bytes the peer sends before it closes the connection, [chunks] says
    how the transport fragments them (the n-th call of [recv] hands over
    at most [S c] bytes when the n-th entry is [c], and as many as asked
    for once the list is used up), [outbox] collects what [sendall] was
    given. A socket never fails; [Link] below adds the calls that raise. *)
Module Socket.

Record t := mk {
  inbox : bytes;
  chunks : list nat;
  outbox : bytes
}.

(** [recv(bufsize)] with [bufsize > 0]: between one and [bufsize] bytes,
    or [b''] once the peer has closed. *)
Definition recv (sock : t) (bufsize : nat) : bytes * t :=
  let k := match chunks sock with
           | c :: _ => Nat.min bufsize (S c)
           | [] => bufsize
           end in
  (take k (inbox sock),
   {| inbox := drop k (inbox sock); chunks := tail (chunks sock); outbox := outbox sock |}).

(** [sendall(data)] *)
Definition sendall (sock : t) (data : bytes) : t :=
  {| inbox := inbox sock; chunks := chunks sock; outbox := outbox sock ++ data |}.

End Socket.

(** The loop of [receive_all]. Every pass either returns or adds at
    least one byte to [data], so [S length] passes are enough; the result
    is [None] only if [fuel] runs out. *)
Fixpoint receive_all_loop (fuel : nat) (sock : Socket.t) (data : bytes) (length : nat)
    : option (option bytes * Socket.t) :=
  match fuel with
  | O => None
  | S fuel' =>
      if (List.length data <? length)%nat then
        let '(chunk, sock') := Socket.recv sock (length - List.length data) in
        match chunk with
        | [] => Some (None, sock')
        | _ :: _ => receive_all_loop fuel' sock' (data ++ chunk) length
        end
      else Some (Some data, sock)
  end.

(** [receive_all] : the bytes read, or [None] when the peer closed
    first, and the socket afterwards. *)
Definition receive_all (sock : Socket.t) (length : nat) : option (option bytes * Socket.t) :=
  receive_all_loop (S length) sock [] length.

(** [send_response] : [None] when packing the header raises. *)
Definition send_response (sock : Socket.t) (msg_type device_id sequence : Z) (data : bytes)
    : option Socket.t :=
  let response_type := SpiMessageType.RESPONSE in
  let data_length := if truthy (Some data) then Z.of_nat (List.length data) else 0 in
  header ← pack_BBHI_le response_type device_id data_length sequence;
  let sock := Socket.sendall sock header in
  Some (if truthy (Some data) then Socket.sendall sock data else sock).

(** A connection that can break. [faults] has one entry for every call
    of [recv] or [sendall], in the order the calls are made: [None] lets
    the call through to the socket, [Some k] makes it raise; a [sendall]
    that raises has put the first [k] bytes of its data on the wire
    before. Calls beyond the end of the list go through. *)
Module Link.

Record t := mk {
  sock : Socket.t;
  faults : list (option nat)
}.

(** What a call on the connection comes to: a value and the connection
    afterwards, or an exception and the connection afterwards. *)
Inductive run (A : Type) : Type :=
| Returned (a : A) (link : t)
| Raised (link : t).
Arguments Returned {A} a link.
Arguments Raised {A} link.

(** [recv(bufsize)] *)
Definition recv (link : t) (bufsize : nat) : run bytes :=
  match faults link with
  | Some _ :: rest => Raised {| sock := sock link; faults := rest |}
  | _ =>
      let '(chunk, s) := Socket.recv (sock link) bufsize in
      Returned chunk {| sock := s; faults := tail (faults link) |}
  end.

(** [sendall(data)] *)
Definition sendall (link : t) (data : bytes) : run unit :=
  match faults link with
  | Some k :: rest =>
      Raised {| sock := Socket.sendall (sock link) (take k data); faults := rest |}
  | _ =>
      Returned tt {| sock := Socket.sendall (sock link) data; faults := tail (faults link) |}
  end.

(** The loop of [receive_all] on a connection that can break: an
    exception of [recv] leaves the loop. [None] only if [fuel] runs out. *)
Fixpoint receive_all_loop (fuel : nat) (link : t) (data : bytes) (length : nat)
    : option (run (option bytes)) :=
  match fuel with
  | O => None
  | S fuel' =>
      if (List.length data <? length)%nat then
        match recv link (length - List.length data) with
        | Raised link' => Some (Raised link')
        | Returned chunk link' =>
            match chunk with
            | [] => Some (Returned None link')
            | _ :: _ => receive_all_loop fuel' link' (data ++ chunk) length
            end
        end
      else Some (Returned (Some data) link)
  end.

(** [receive_all] *)
Definition receive_all (link : t) (length : nat) : option (run (option bytes)) :=
  receive_all_loop (S length) link [] length.

(** [send_response] : raises when packing the header raises or when a
    [sendall] does. *)
Definition send_response (link : t) (msg_type device_id sequence : Z) (data : bytes)
    : run unit :=
  let response_type := SpiMessageType.RESPONSE in
  let data_length := if truthy (Some data) then Z.of_nat (List.length data) else 0 in
  match pack_BBHI_le response_type device_id data_length sequence with
  | None => Raised link
  | Some header =>
      match sendall link header with
      | Raised link' => Raised link'
      | Returned _ link' =>
          if truthy (Some data) then sendall link' data else Returned tt link'
      end
  end.

End Link.

(** How [handle_client] leaves its [try] block: off the end of the loop
    (a [break], or [self.running] found false) or through its [except]
    clause. *)
Inductive Exit := LoopEnded | ClientError.

(** The [try] block of [handle_client]. [running] is the value of
    [self.running], which [__init__] sets to [False] and [start] to
    [True]; [handle_client] itself never assigns it. Every pass that does
    not leave the loop takes at least the eight header bytes out of the
    inbox; the result is [None] only if [fuel] runs out. When
    [process_message] raises, the server returned is the one before the
    call. Closing the socket in the [finally] clause is not modelled. *)
Fixpoint handle_client_loop (fuel : nat) (running : bool)
    (self : SpiSocketServer.t) (link : Link.t)
    : option (Exit * SpiSocketServer.t * Link.t) :=
  match fuel with
  | O => None
  | S fuel' =>
      if negb running then Some (LoopEnded, self, link) else
      match Link.receive_all link 8 with
      | None => None
      | Some (Link.Raised link) => Some (ClientError, self, link)
      | Some (Link.Returned header_data link) =>
          if negb (truthy header_data) then Some (LoopEnded, self, link) else
          match unpack_BBHI_le (default [] header_data) with
          | None => Some (ClientError, self, link)
          | Some (msg_type, device_id, data_length, sequence) =>
              match (if 0 <? data_length
                     then Link.receive_all link (Z.to_nat data_length)
                     else Some (Link.Returned None link)) with
              | None => None
              | Some (Link.Raised link) => Some (ClientError, self, link)
              | Some (Link.Returned payload link) =>
                  if (0 <? data_length) && negb (truthy payload)
                  then Some (LoopEnded, self, link) else
                  match SpiSocketServer.process_message self msg_type device_id payload with
                  | None => Some (ClientError, self, link)
                  | Some (self', response) =>
                      match Link.send_response link msg_type device_id sequence response with
                      | Link.Raised link' => Some (ClientError, self', link')
                      | Link.Returned _ link' => handle_client_loop fuel' running self' link'
                      end
                  end
              end
          end
      end
  end.

(** [handle_client] *)
Definition handle_client (running : bool) (self : SpiSocketServer.t) (link : Link.t)
    : option (Exit * SpiSocketServer.t * Link.t) :=
  handle_client_loop (S (length (Socket.inbox (Link.sock link)))) running self link.

(** No call on the connection is due to raise. *)
Definition no_faults (link : Link.t) : Prop :=
  Forall (fun fault => fault = None) (Link.faults link).

(** A request as a client puts it on the wire: the header of
    [handle_client]'s [unpack] followed by the payload. *)
Record Request := mkRequest {
  req_type : Z;
  req_device : Z;
  req_sequence : Z;
  req_payload : bytes
}.

Fixpoint wire (requests : list Request) : option bytes :=
  match requests with
  | [] => Some []
  | r :: rest =>
      header ← pack_BBHI_le (req_type r) (req_device r)
                 (Z.of_nat (length (req_payload r))) (req_sequence r);
      tl ← wire rest;
      Some (header ++ req_payload r ++ tl)
  end.

(** The payload [handle_client] hands to [process_message]: no object
    at all when the announced length is zero. *)
Definition payload_object (p : bytes) : option bytes :=
  match p with
  | [] => None
  | _ :: _ => Some p
  end.

(** What [handle_client] calls [process_message] with for a request. *)
Definition dispatched (r : Request) : Z * Z * option bytes :=
  (req_type r, req_device r, payload_object (req_payload r)).

(** The replies as [send_response] puts them on the wire. *)
Fixpoint reply_wire (requests : list Request) (replies : list bytes) : option bytes :=
  match requests, replies with
  | r :: rest, data :: replies' =>
      header ← pack_BBHI_le SpiMessageType.RESPONSE (req_device r)
                 (Z.of_nat (length data)) (req_sequence r);
      tl ← reply_wire rest replies';
      Some (header ++ data ++ tl)
  | _, _ => Some []
  end.

(** A register table inside the 4-bit address space that still has the
    nine initial addresses. *)
Definition table_bounded (regs : gmap Z Z) : Prop :=
  (forall a v, regs !! a = Some v -> 0 <= a <= 15 /\ 0 <= v <= 255) /\
  (forall a, 0 <= a <= 8 -> is_Some (regs !! a)).

(** The length of the reply to a message, read off [process_message]. *)
Definition reply_length (msg_type : Z) (payload : option bytes) : nat :=
  let p := default [] payload in
  if msg_type =? SpiMessageType.TRANSFER then length p
  else if msg_type =? SpiMessageType.RECEIVE then
    match p with
    | b0 :: b1 :: _ => Z.to_nat (256 * byte_to_Z b0 + byte_to_Z b1)
    | _ => 0%nat
    end
  else if msg_type =? SpiMessageType.GET_STATUS then 2%nat
  else 0%nat.

(** The configuration the first seven payload bytes of INIT and
    SET_CONFIG stand for: a little-endian u32 and three single bytes. *)
Definition config_of (b0 b1 b2 b3 b4 b5 b6 : byte) (initialized : bool)
    : SpiSocketServer.DeviceConfig :=
  SpiSocketServer.mkConfig
    (byte_to_Z b0 + 256 * byte_to_Z b1 + 65536 * byte_to_Z b2 + 16777216 * byte_to_Z b3)
    (byte_to_Z b4) (byte_to_Z b5) (byte_to_Z b6) initialized.

(** A tail of the stream that does not hold a whole request: fewer than
    eight bytes, or a header that announces more payload than follows. *)
Definition incomplete (tail : bytes) : bool :=
  match unpack_BBHI_le (take 8 tail) with
  | None => true
  | Some (_, _, data_length, _) => Z.of_nat (length tail) - 8 <? data_length
  end.

(** ** Masks and the response codec *)

Lemma land_15_range x : 0 <= Z.land x 0x0F < 16.
Proof. change 0x0F with (Z.ones 4). rewrite Z.land_ones by lia. apply Z.mod_pos_bound. lia. Qed.

Lemma land_255_range x : 0 <= Z.land x 0xFF < 256.
Proof. change 0xFF with (Z.ones 8). rewrite Z.land_ones by lia. apply Z.mod_pos_bound. lia. Qed.

Lemma land_15_small x : 0 <= x < 16 -> Z.land x 0x0F = x.
Proof. intros H. change 0x0F with (Z.ones 4). rewrite Z.land_ones by lia. apply Z.mod_small. lia. Qed.

Lemma land_255_small x : 0 <= x < 256 -> Z.land x 0xFF = x.
Proof. intros H. change 0xFF with (Z.ones 8). rewrite Z.land_ones by lia. apply Z.mod_small. lia. Qed.

Lemma build_response_masked a d :
  build_response a d = build_response (Z.land a 0x0F) (Z.land d 0xFF).
Proof.
  unfold build_response.
  rewrite (land_15_small (Z.land a 0x0F)) by apply land_15_range.
  rewrite (land_255_small (Z.land d 0xFF)) by apply land_255_range.
  reflexivity.
Qed.

Lemma grid_check_sound (P : Z -> Z -> bool) :
  grid_check P = true ->
  forall a d, 0 <= a < 16 -> 0 <= d < 256 -> P a d = true.
Proof.
  intros H a d Ha Hd.
  unfold grid_check in H. rewrite forallb_forall in H.
  assert (Ia : In a (seqZ 0 16)) by (apply list_elem_of_In, elem_of_seqZ; lia).
  specialize (H _ Ia). rewrite forallb_forall in H.
  apply H. apply list_elem_of_In, elem_of_seqZ. lia.
Qed.

Lemma build_response_shape a d : response_shape (build_response a d) = true.
Proof.
  rewrite build_response_masked.
  apply (grid_check_sound (fun a d => response_shape (build_response a d))).
  - vm_compute. reflexivity.
  - apply land_15_range.
  - apply land_255_range.
Qed.

Lemma decode_build_response a d :
  0 <= a < 16 -> 0 <= d < 256 -> decode (build_response a d) = (a, d).
Proof.
  intros Ha Hd.
  pose proof (grid_check_sound
    (fun a d => (addr_of (build_response a d) =? a) && (data_of (build_response a d) =? d))) as H.
  specialize (H ltac:(vm_compute; reflexivity) a d Ha Hd).
  apply andb_true_iff in H as [H1 H2].
  apply Z.eqb_eq in H1, H2. unfold decode. congruence.
Qed.

(** ** The response frame *)

(** C5. Every frame returned by [process_spi_frame], from any simulator
    state and for any command frame, has an even number of set bits among
    bits 1..15; its bit 1 is the XOR of its bits 2..15; its cmd field
    (bits 15..14) and its bit 0 are zero; and it fits in 16 bits. *)
Theorem response_parity (s : TLE92104Simulator.t) (f : Z) :
  let r := snd (process_spi_frame s f) in
  Nat.even (popcount r 1 15) = true /\
  Z.testbit r 1 = xor_bits r 2 14 /\
  cmd_of r = 0 /\
  Z.testbit r 0 = false /\
  0 <= r < 65536.
Proof.
  cbn zeta. unfold process_spi_frame. cbn [snd].
  pose proof (build_response_shape (last_response_addr s) (last_response_data s)) as H.
  unfold response_shape in H.
  repeat (apply andb_true_iff in H as [H ?]).
  repeat split.
  - assumption.
  - apply Bool.eqb_prop. assumption.
  - apply Z.eqb_eq. assumption.
  - apply negb_true_iff. assumption.
  - apply Z.leb_le. assumption.
  - apply Z.ltb_lt. assumption.
Qed.

(** ** Reachable simulators *)

Lemma registers_get_range regs a :
  map_Forall (fun _ v => 0 <= v < 256) regs -> 0 <= registers_get regs a < 256.
Proof.
  intros H. unfold registers_get.
  destruct (regs !! a) as [v|] eqn:E; cbn; [exact (H a v E) | lia].
Qed.

Lemma wf_init : wf init.
Proof.
  unfold wf, init; cbn. split; [lia |]. split; [lia |].
  repeat (apply map_Forall_insert_2; [unfold DEVICE_ID; lia |]).
  apply map_Forall_empty.
Qed.

Lemma process_spi_frame_wf s f : wf s -> wf (fst (process_spi_frame s f)).
Proof.
  intros (Ha & Hd & Hr). unfold process_spi_frame; cbn [fst].
  pose proof (land_15_range (Z.shiftr f ADDR_SHIFT)) as Haddr.
  pose proof (land_255_range (Z.shiftr f DATA_SHIFT)) as Hdata.
  destruct (_ =? 0x00).
  { unfold wf; cbn. auto using registers_get_range. }
  destruct (_ =? 0x01); [| unfold wf; cbn; split; [lia |]; split; [lia | assumption]].
  destruct (negb _).
  - assert (Hr' : map_Forall (fun _ v => 0 <= v < 256)
                    (<[Z.land (Z.shiftr f ADDR_SHIFT) 0x0F :=
                         Z.land (Z.shiftr f DATA_SHIFT) 0xFF]> (registers s)))
      by (apply map_Forall_insert_2; assumption).
    unfold wf; cbn. auto using registers_get_range.
  - unfold wf; cbn. auto using registers_get_range.
Qed.

Lemma run_frames_cons s f fs :
  run_frames s (f :: fs) =
  (state_after (fst (process_spi_frame s f)) fs,
   snd (process_spi_frame s f) :: responses (fst (process_spi_frame s f)) fs).
Proof.
  unfold state_after, responses. cbn [run_frames].
  destruct (process_spi_frame s f) as [s' r]. cbn [fst snd].
  destruct (run_frames s' fs). reflexivity.
Qed.

Lemma state_after_cons s f fs :
  state_after s (f :: fs) = state_after (fst (process_spi_frame s f)) fs.
Proof. unfold state_after at 1. rewrite run_frames_cons. reflexivity. Qed.

Lemma responses_cons s f fs :
  responses s (f :: fs) =
  snd (process_spi_frame s f) :: responses (fst (process_spi_frame s f)) fs.
Proof. unfold responses at 1. rewrite run_frames_cons. reflexivity. Qed.

Lemma state_after_nil s : state_after s [] = s.
Proof. reflexivity. Qed.

Lemma state_after_snoc s fs f :
  state_after s (fs ++ [f]) = fst (process_spi_frame (state_after s fs) f).
Proof.
  revert s. induction fs as [|g fs IH]; intros s.
  - cbn [app]. rewrite state_after_cons. reflexivity.
  - cbn [app]. rewrite !state_after_cons. apply IH.
Qed.

Lemma wf_state_after s fs : wf s -> wf (state_after s fs).
Proof.
  revert s. induction fs as [|f fs IH]; intros s H; [exact H |].
  rewrite state_after_cons. apply IH, process_spi_frame_wf, H.
Qed.

Lemma responses_length s fs : length (responses s fs) = length fs.
Proof.
  revert s. induction fs as [|f fs IH]; intros s; [reflexivity |].
  rewrite responses_cons. cbn [length]. f_equal. apply IH.
Qed.

(** The frame returned by call [i] encodes the pending pair left by the
    calls before it. *)
Lemma responses_lookup s (fs : list Z) (i : nat) f :
  fs !! i = Some f ->
  responses s fs !! i =
  Some (build_response (last_response_addr (state_after s (take i fs)))
                       (last_response_data (state_after s (take i fs)))).
Proof.
  revert s i. induction fs as [|g fs IH]; intros s i H; [discriminate |].
  rewrite responses_cons. destruct i as [|i].
  - reflexivity.
  - cbn [take]. rewrite state_after_cons. cbn. apply IH. exact H.
Qed.

Lemma state_after_take_S s (fs : list Z) (i : nat) f :
  fs !! i = Some f ->
  state_after s (take (S i) fs) = fst (process_spi_frame (state_after s (take i fs)) f).
Proof.
  intros H. rewrite (take_S_r _ _ _ H). apply state_after_snoc.
Qed.

(** ** The identity register *)

Lemma devid_step s f :
  registers s !! REG_DEVID = Some DEVICE_ID ->
  registers (fst (process_spi_frame s f)) !! REG_DEVID = Some DEVICE_ID.
Proof.
  intros H. unfold process_spi_frame; cbn [fst].
  destruct (_ =? 0x00); [exact H |].
  destruct (_ =? 0x01); [| exact H].
  destruct (Z.land (Z.shiftr f ADDR_SHIFT) 0x0F =? REG_DEVID) eqn:E; cbn; [exact H |].
  apply Z.eqb_neq in E. rewrite lookup_insert_ne by exact E. exact H.
Qed.

Lemma devid_state_after s fs :
  registers s !! REG_DEVID = Some DEVICE_ID ->
  registers (state_after s fs) !! REG_DEVID = Some DEVICE_ID.
Proof.
  revert s. induction fs as [|f fs IH]; intros s H; [exact H |].
  rewrite state_after_cons. apply IH, devid_step, H.
Qed.

(** A READ frame leaves [(addr, registers.get(addr, 0))] pending and
    changes nothing else. *)
Lemma process_read s f :
  cmd_of f = 0 ->
  fst (process_spi_frame s f) =
  {| registers := registers s;
     wdg_count := wdg_count s;
     last_response_data := registers_get (registers s) (addr_of f);
     last_response_addr := addr_of f |}.
Proof.
  intros H. unfold process_spi_frame; cbn [fst].
  fold (cmd_of f). rewrite H. reflexivity.
Qed.

(** A WRITE frame aimed at any address but 0x08 stores its data byte
    under that address and leaves [(addr, data)] pending. *)
Lemma process_write s w :
  cmd_of w = 1 ->
  addr_of w <> REG_DEVID ->
  registers (fst (process_spi_frame s w)) = <[addr_of w := data_of w]> (registers s) /\
  pending (fst (process_spi_frame s w)) = (addr_of w, data_of w).
Proof.
  intros Hc Ha. unfold process_spi_frame; cbn [fst].
  fold (cmd_of w) (addr_of w) (data_of w). rewrite Hc. cbn [Z.eqb Pos.eqb].
  apply Z.eqb_neq in Ha. rewrite Ha. cbn [negb].
  unfold pending, registers_get; cbn. rewrite lookup_insert_eq. split; reflexivity.
Qed.

(** C4. After any list of frames fed to a fresh simulator (WRITE frames
    included, also those aimed at address 0x08) the register at address
    0x08 holds 0x5A; a READ of address 0x08 leaves (0x08, 0x5A) pending,
    does not change the register, and the frame returned by the call
    after it decodes to (0x08, 0x5A). *)
Theorem devid_invariant (fs : list Z) (f g : Z) :
  cmd_of f = 0 ->
  addr_of f = REG_DEVID ->
  let s := state_after init fs in
  let s' := fst (process_spi_frame s f) in
  registers s !! REG_DEVID = Some DEVICE_ID /\
  pending s' = (REG_DEVID, DEVICE_ID) /\
  registers s' !! REG_DEVID = Some DEVICE_ID /\
  decode (snd (process_spi_frame s' g)) = (REG_DEVID, DEVICE_ID).
Proof.
  intros Hc Ha s s'.
  assert (Hs : registers s !! REG_DEVID = Some DEVICE_ID)
    by (apply devid_state_after; reflexivity).
  assert (Hp : pending s' = (REG_DEVID, DEVICE_ID)).
  { subst s'. rewrite (process_read s f Hc). unfold pending; cbn.
    rewrite Ha. unfold registers_get. rewrite Hs. reflexivity. }
  split; [exact Hs |]. split; [exact Hp |]. split; [apply devid_step, Hs |].
  unfold process_spi_frame; cbn [snd].
  unfold pending in Hp. injection Hp as -> ->. vm_compute. reflexivity.
Qed.

Lemma devid_invariant_witness :
  let s := state_after init [0x617C; 0x5404] in
  let s' := fst (process_spi_frame s 0x2000) in
  registers s !! REG_DEVID = Some DEVICE_ID /\
  pending s' = (REG_DEVID, DEVICE_ID) /\
  registers s' !! REG_DEVID = Some DEVICE_ID /\
  decode (snd (process_spi_frame s' 0)) = (REG_DEVID, DEVICE_ID).
Proof. apply (devid_invariant [0x617C; 0x5404] 0x2000 0); reflexivity. Defined.

(** ** Addresses outside the initial register table *)

Lemma unmapped_step s g a :
  registers s !! a = None ->
  ~ (cmd_of g = 1 /\ addr_of g = a) ->
  registers (fst (process_spi_frame s g)) !! a = None.
Proof.
  intros H Hg. unfold process_spi_frame; cbn [fst].
  fold (cmd_of g) (addr_of g) (data_of g).
  destruct (cmd_of g =? 0x00); [exact H |].
  destruct (cmd_of g =? 0x01) eqn:E1; [| exact H].
  apply Z.eqb_eq in E1.
  destruct (negb _); cbn; [| exact H].
  rewrite lookup_insert_ne; [exact H |].
  intros E. apply Hg. split; assumption.
Qed.

Lemma unmapped_state_after s fs a :
  registers s !! a = None ->
  Forall (fun g => ~ (cmd_of g = 1 /\ addr_of g = a)) fs ->
  registers (state_after s fs) !! a = None.
Proof.
  revert s. induction fs as [|g fs IH]; intros s H HF; [exact H |].
  rewrite state_after_cons. inversion HF; subst.
  apply IH; [apply unmapped_step |]; assumption.
Qed.

Lemma init_unmapped a : 9 <= a -> registers init !! a = None.
Proof.
  intros H. unfold init; cbn [registers].
  unfold REG_CTRL1, REG_CTRL2, REG_CTRL3, REG_CFG, REG_DIAG, REG_WDG,
    REG_ICR, REG_HWCR, REG_DEVID.
  repeat (rewrite lookup_insert_ne by lia). apply lookup_empty.
Qed.

(** C3, as the code has it. Take an address in 0x09..0x0F and any list
    of frames fed to a fresh simulator in which no WRITE frame is aimed
    at that address. Then the address has no entry in the register table
    and a READ of it leaves (addr, 0) pending. A WRITE frame aimed at the
    address does create an entry holding its data byte, and a READ after
    it leaves (addr, data) pending. *)
Theorem unmapped_read_zero (a : Z) (fs : list Z) (f w : Z) :
  9 <= a <= 15 ->
  Forall (fun g => ~ (cmd_of g = 1 /\ addr_of g = a)) fs ->
  cmd_of f = 0 -> addr_of f = a ->
  cmd_of w = 1 -> addr_of w = a ->
  let s := state_after init fs in
  let s' := fst (process_spi_frame s w) in
  registers s !! a = None /\
  pending (fst (process_spi_frame s f)) = (a, 0) /\
  registers s' !! a = Some (data_of w) /\
  pending (fst (process_spi_frame s' f)) = (a, data_of w).
Proof.
  intros Ha HF Hc Hf Hwc Hw s s'.
  assert (Hs : registers s !! a = None).
  { apply unmapped_state_after; [apply init_unmapped; lia | exact HF]. }
  assert (Hs' : registers s' !! a = Some (data_of w)).
  { subst s'. destruct (process_write s w Hwc) as [-> _].
    - rewrite Hw. unfold REG_DEVID. lia.
    - rewrite Hw. apply lookup_insert_eq. }
  clearbody s s'.
  split; [exact Hs |]. split; [| split; [exact Hs' |]].
  - rewrite (process_read s f Hc). unfold pending; cbn.
    rewrite Hf. unfold registers_get. rewrite Hs. reflexivity.
  - rewrite (process_read s' f Hc). unfold pending; cbn.
    rewrite Hf. unfold registers_get. rewrite Hs'. reflexivity.
Qed.

Lemma unmapped_read_zero_witness :
  let s := state_after init [0x6954; 0x4154; 0x2400] in
  let s' := fst (process_spi_frame s 0x6554) in
  registers s !! 9 = None /\
  pending (fst (process_spi_frame s 0x2400)) = (9, 0) /\
  registers s' !! 9 = Some (data_of 0x6554) /\
  pending (fst (process_spi_frame s' 0x2400)) = (9, data_of 0x6554).
Proof.
  apply (unmapped_read_zero 9 [0x6954; 0x4154; 0x2400] 0x2400 0x6554).
  - lia.
  - repeat constructor; vm_compute; intros [H1 H2]; discriminate.
  - reflexivity.
  - reflexivity.
  - reflexivity.
  - reflexivity.
Defined.

(** C3, as stated, fails: a WRITE of 0x55 to address 0x09 (frame 0x6554)
    creates an entry for that address, and the READ of address 0x09
    (frame 0x2400) that follows leaves (0x09, 0x55) pending, which the
    next call returns. *)
Lemma unmapped_write_is_stored :
  let s := state_after init [0x6554] in
  let s' := fst (process_spi_frame s 0x2400) in
  (cmd_of 0x6554, addr_of 0x6554, data_of 0x6554) = (1, 9, 0x55) /\
  (cmd_of 0x2400, addr_of 0x2400) = (0, 9) /\
  registers init !! 9 = None /\
  registers s !! 9 = Some 0x55 /\
  pending s' = (9, 0x55) /\
  last_response_data s' <> 0 /\
  decode (snd (process_spi_frame s' 0)) = (9, 0x55).
Proof. vm_compute. repeat split; discriminate. Qed.

(** ** Bits 1 and 0 of a command frame *)

Lemma field_agree (f1 f2 sh w : Z) :
  2 <= sh -> 0 <= w -> sh + w <= 16 ->
  agree_15_2 f1 f2 ->
  Z.land (Z.shiftr f1 sh) (Z.ones w) = Z.land (Z.shiftr f2 sh) (Z.ones w).
Proof.
  intros Hsh Hw Hsum Hagree. apply Z.bits_inj'. intros n Hn.
  rewrite !Z.land_spec, !Z.shiftr_spec by lia.
  destruct (Z.ltb_spec n w) as [Hlt | Hge].
  - rewrite (Hagree (n + sh)) by lia. reflexivity.
  - rewrite Z.ones_spec_high by lia. rewrite !andb_false_r. reflexivity.
Qed.

Lemma process_spi_frame_fields s f1 f2 :
  cmd_of f1 = cmd_of f2 -> addr_of f1 = addr_of f2 -> data_of f1 = data_of f2 ->
  process_spi_frame s f1 = process_spi_frame s f2.
Proof.
  unfold cmd_of, addr_of, data_of. intros Hc Ha Hd.
  unfold process_spi_frame. rewrite Hc, Ha, Hd. reflexivity.
Qed.

Lemma agree_of_mask f1 f2 :
  Z.land f1 0xFFFC = Z.land f2 0xFFFC -> agree_15_2 f1 f2.
Proof.
  intros H i Hi.
  assert (Hm : Z.testbit 0xFFFC i = true).
  { assert (i = 2 \/ i = 3 \/ i = 4 \/ i = 5 \/ i = 6 \/ i = 7 \/ i = 8 \/ i = 9 \/
            i = 10 \/ i = 11 \/ i = 12 \/ i = 13 \/ i = 14 \/ i = 15) as Hcases by lia.
    repeat (destruct Hcases as [-> | Hcases]; [reflexivity |]).
    subst i. reflexivity. }
  pose proof (Z.land_spec f1 0xFFFC i) as H1.
  pose proof (Z.land_spec f2 0xFFFC i) as H2.
  rewrite Hm, andb_true_r in H1, H2. rewrite <- H1, <- H2, H. reflexivity.
Qed.

(** C8. Two command frames that agree on bits 15..2 (whatever their
    parity bit 1 and reserved bit 0 are) make [process_spi_frame], run
    from the same simulator, return the same frame and leave the same
    simulator behind. *)
Theorem parity_not_validated (s : TLE92104Simulator.t) (f1 f2 : Z) :
  agree_15_2 f1 f2 ->
  process_spi_frame s f1 = process_spi_frame s f2.
Proof.
  intros H. apply process_spi_frame_fields.
  - apply (field_agree f1 f2 14 2); [lia | lia | lia | exact H].
  - apply (field_agree f1 f2 10 4); [lia | lia | lia | exact H].
  - apply (field_agree f1 f2 2 8); [lia | lia | lia | exact H].
Qed.

Lemma parity_not_validated_witness :
  agree_15_2 0x6554 0x6557 /\
  process_spi_frame init 0x6554 = process_spi_frame init 0x6557.
Proof.
  assert (H : agree_15_2 0x6554 0x6557) by (apply agree_of_mask; reflexivity).
  split; [exact H | apply (parity_not_validated init 0x6554 0x6557 H)].
Defined.

(** ** The transfer algorithm *)

Lemma bytearray_append_masked (response : bytes) (x : Z) :
  exists b, bytearray_append response (Z.land x 0xFF) = Some (response ++ [b]).
Proof.
  pose proof (land_255_range x) as H. unfold bytearray_append.
  replace ((0 <=? Z.land x 0xFF) && (Z.land x 0xFF <? 256)) with true
    by (symmetry; apply andb_true_iff; split; [apply Z.leb_le | apply Z.ltb_lt]; lia).
  destruct (Byte.of_N (Z.to_N (Z.land x 0xFF))) as [b|] eqn:E.
  - exists b. reflexivity.
  - apply Byte.of_N_None_iff in E. lia.
Qed.

Lemma pair_ind (P : bytes -> Prop) :
  P [] -> (forall b, P [b]) ->
  (forall b0 b1 rest, P rest -> P (b0 :: b1 :: rest)) ->
  forall p, P p.
Proof.
  intros H0 H1 H2 p.
  assert (H : P p /\ forall b, P (b :: p)).
  { induction p as [|c p [IH1 IH2]]; split; auto. }
  apply H.
Qed.

Lemma even_of_nat (n : nat) : (Z.of_nat n mod 2 =? 0) = Nat.even n.
Proof.
  rewrite <- Zeven_mod. induction n as [|n IH]; [reflexivity |].
  rewrite Nat2Z.inj_succ, Z.even_succ, <- Z.negb_even, IH, Nat.even_succ.
  apply Nat.negb_even.
Qed.

(** The loop never fails; it appends two bytes per complete pair. *)
Lemma transfer_loop_spec (p : bytes) :
  forall sim response, exists sim' out,
    SpiSocketServer.transfer_loop sim response p = Some (sim', response ++ out) /\
    (length out + Nat.b2n (Nat.odd (length p)))%nat = length p.
Proof.
  induction p as [| b | b0 b1 rest IH] using pair_ind; intros sim response.
  - exists sim, []. rewrite app_nil_r. split; reflexivity.
  - exists sim, []. rewrite app_nil_r. split; reflexivity.
  - cbn [SpiSocketServer.transfer_loop].
    destruct (process_spi_frame sim _) as [sim1 rx].
    destruct (bytearray_append_masked response (Z.shiftr rx 8)) as [hi ->].
    cbn [mbind option_bind].
    destruct (bytearray_append_masked (response ++ [hi]) rx) as [lo ->].
    cbn [mbind option_bind].
    destruct (IH sim1 ((response ++ [hi]) ++ [lo])) as (sim' & out & -> & Hlen).
    exists sim', (hi :: lo :: out). split.
    + rewrite <- !app_assoc. reflexivity.
    + cbn [length]. rewrite Nat.odd_succ_succ. lia.
Qed.

Lemma process_spi_transfer_long self (p : bytes) :
  (2 <= length p)%nat ->
  exists sim out,
    SpiSocketServer.transfer_loop (SpiSocketServer.tle92104 self) [] p = Some (sim, out) /\
    (length out + Nat.b2n (Nat.odd (length p)))%nat = length p /\
    SpiSocketServer.process_spi_transfer self (Some p) =
    Some ({| SpiSocketServer.tle92104 := sim;
             SpiSocketServer.spi_devices := SpiSocketServer.spi_devices self |},
          if Nat.odd (length p) then out ++ [x00] else out).
Proof.
  intros Hlen.
  destruct (transfer_loop_spec p (SpiSocketServer.tle92104 self) [])
    as (sim & out & Hloop & Hout).
  exists sim, out. cbn [app] in Hloop. split; [exact Hloop |]. split; [exact Hout |].
  unfold SpiSocketServer.process_spi_transfer.
  assert (Ht : truthy (Some p) = true) by (destruct p; [cbn in Hlen; lia | reflexivity]).
  rewrite Ht. cbn [negb orb].
  replace (length p <? 2)%nat with false by (symmetry; apply Nat.ltb_ge; lia).
  rewrite Hloop. cbn [mbind option_bind].
  rewrite even_of_nat, Nat.negb_even.
  destruct (Nat.odd (length p)); reflexivity.
Qed.

(** C6, as the code has it. A transfer never fails and its output is as
    long as its input (an absent payload counts as empty); for an
    odd-length input of at least three bytes the last output byte is
    0x00; an input of fewer than two bytes comes back unchanged (so the
    single byte of a 1-byte input is returned as it is) and leaves the
    server untouched. *)
Theorem transfer_length (self : SpiSocketServer.t) (payload : option bytes) :
  let p := default [] payload in
  exists self' out,
    SpiSocketServer.process_spi_transfer self payload = Some (self', out) /\
    length out = length p /\
    (Nat.odd (length p) = true -> (3 <= length p)%nat -> last out = Some x00) /\
    ((length p < 2)%nat -> out = p /\ self' = self).
Proof.
  destruct payload as [p |]; cbn [default from_option id].
  2: { exists self, []. split; [reflexivity |]. split; [reflexivity |].
       split; [cbn; lia | auto]. }
  destruct (Nat.lt_ge_cases (length p) 2) as [Hshort | Hlong].
  - exists self, p. split; [| split; [reflexivity | split; [lia | auto]]].
    destruct p as [| b [| c p]]; [reflexivity | reflexivity | cbn in Hshort; lia].
  - destruct (process_spi_transfer_long self p Hlong) as (sim & out & _ & Hout & ->).
    eexists _, _. split; [reflexivity |].
    destruct (Nat.odd (length p)) eqn:Hodd; cbn [Nat.b2n] in Hout.
    + split; [rewrite length_app; cbn; lia |].
      split; [intros _ _; apply last_snoc | lia].
    + split; [lia |]. split; [discriminate | lia].
Qed.

(** C6, as stated, fails on a 1-byte payload: the byte comes back as it
    is, here 0xAA, not 0x00. *)
Lemma transfer_one_byte_unchanged :
  Nat.odd (length [xaa]) = true /\
  SpiSocketServer.process_message SpiSocketServer.init SpiMessageType.TRANSFER 0 (Some [xaa])
  = Some (SpiSocketServer.init, [xaa]) /\
  last [xaa] <> Some x00.
Proof. split; [reflexivity |]. split; [reflexivity | discriminate]. Qed.

(** ** Scenario: reading the identity register over TRANSFER *)

(** C2, as the code has it. The READ of address 0x8 is the payload
    [0x20, 0x00] (address at bits 13..10). From a fresh server, a
    TRANSFER of it is answered [0x00, 0x00], and a second TRANSFER of
    [0x00, 0x00] is answered [0x21, 0x6A]. The payload [0x08, 0x00] is
    the READ of address 0x2; it is answered [0x00, 0x00] too, and the
    second TRANSFER after it is answered [0x08, 0x02]. *)
Theorem scenario_read_identity (dev1 dev2 : Z) :
  let tx := Z.lor (Z.shiftl (byte_to_Z x20) 8) (byte_to_Z x00) in
  let tx' := Z.lor (Z.shiftl (byte_to_Z x08) 8) (byte_to_Z x00) in
  (cmd_of tx, addr_of tx) = (0, REG_DEVID) /\
  snd <$> serve SpiSocketServer.init
            [(SpiMessageType.TRANSFER, dev1, Some [x20; x00]);
             (SpiMessageType.TRANSFER, dev2, Some [x00; x00])]
  = Some [[x00; x00]; [x21; x6a]] /\
  (cmd_of tx', addr_of tx') = (0, REG_CTRL3) /\
  snd <$> serve SpiSocketServer.init
            [(SpiMessageType.TRANSFER, dev1, Some [x08; x00]);
             (SpiMessageType.TRANSFER, dev2, Some [x00; x00])]
  = Some [[x00; x00]; [x08; x02]].
Proof. repeat split; reflexivity. Qed.

(** C2, as stated, fails: the payload [0x08, 0x00] is the frame 0x0800,
    whose address field is 0x2, so it reads CTRL3; the second reply is
    [0x08, 0x02], not [0x21, 0x6A]. *)
Lemma scenario_payload_0800 :
  let tx := Z.lor (Z.shiftl (byte_to_Z x08) 8) (byte_to_Z x00) in
  (cmd_of tx, addr_of tx) = (0, REG_CTRL3) /\
  snd <$> serve SpiSocketServer.init
            [(SpiMessageType.TRANSFER, 0, Some [x08; x00]);
             (SpiMessageType.TRANSFER, 0, Some [x00; x00])]
  = Some [[x00; x00]; [x08; x02]] /\
  [x08; x02] <> [x21; x6a].
Proof. split; [reflexivity |]. split; [reflexivity | discriminate]. Qed.

(** ** The dispatcher *)

(** Closes a goal [exists self' response, f ... = Some (self', response) /\ _]
    once the call has been reduced to a [Some]. *)
Ltac answered := eexists _, _; split; reflexivity.

Lemma byte_to_Z_range (b : byte) : 0 <= byte_to_Z b < 256.
Proof. unfold byte_to_Z. pose proof (Byte.to_N_bounded b). lia. Qed.

(** The two bytes of a big-endian u16. *)
Lemma be_u16 (x y : Z) : 0 <= y < 256 -> Z.lor (Z.shiftl x 8) y = 256 * x + y.
Proof.
  intros Hy. rewrite <- Z.add_nocarry_lor.
  - rewrite Z.shiftl_mul_pow2 by lia. change (2 ^ 8) with 256. lia.
  - apply Z.bits_inj'. intros n Hn. rewrite Z.land_spec, Z.bits_0.
    destruct (Z.ltb_spec n 8) as [Hlo | Hhi].
    + rewrite Z.shiftl_spec_low by lia. reflexivity.
    + rewrite <- (Z.mod_small y (2 ^ 8)) by (change (2 ^ 8) with 256; lia).
      rewrite Z.mod_pow2_bits_high by lia. apply andb_false_r.
Qed.

Lemma unpack_IBBB_le_total (p : bytes) :
  (7 <= length p)%nat -> is_Some (unpack_IBBB_le (take 7 p)).
Proof.
  intros H. do 7 (destruct p as [| ? p]; [cbn in H; lia |]).
  cbn. eexists. reflexivity.
Qed.

Lemma init_registers_get (a : Z) :
  registers_get (registers init) a = if a =? REG_DEVID then DEVICE_ID else 0x00.
Proof.
  unfold registers_get, init; cbn [registers].
  unfold REG_CTRL1, REG_CTRL2, REG_CTRL3, REG_CFG, REG_DIAG, REG_WDG,
    REG_ICR, REG_HWCR, REG_DEVID.
  repeat (rewrite lookup_insert; case_decide; [subst a; reflexivity |]).
  rewrite lookup_empty. destruct (Z.eqb_spec a 8); [congruence | reflexivity].
Qed.

(** C7. An INIT message, whatever its payload (absent, short or long)
    and whatever the server state before it, is answered with an empty
    payload and leaves a simulator equal to a freshly constructed one:
    every address other than 0x08 reads 0x00, address 0x08 reads 0x5A,
    the pending pair is (0, 0) and the watchdog count is 0. A READ of any
    address other than 0x08 on that simulator leaves (addr, 0x00)
    pending. *)
Theorem init_resets (self : SpiSocketServer.t) (device_id : Z) (payload : option bytes) :
  exists self',
    SpiSocketServer.process_message self SpiMessageType.INIT device_id payload
      = Some (self', []) /\
    SpiSocketServer.tle92104 self' = init /\
    (forall a, registers_get (registers (SpiSocketServer.tle92104 self')) a
               = if a =? REG_DEVID then DEVICE_ID else 0x00) /\
    pending (SpiSocketServer.tle92104 self') = (0, 0) /\
    wdg_count (SpiSocketServer.tle92104 self') = 0 /\
    (forall f, cmd_of f = 0 -> addr_of f <> REG_DEVID ->
               pending (fst (process_spi_frame (SpiSocketServer.tle92104 self') f))
               = (addr_of f, 0x00)).
Proof.
  assert (Hfresh : forall devs,
    let self' := {| SpiSocketServer.tle92104 := init;
                    SpiSocketServer.spi_devices := devs |} in
    SpiSocketServer.tle92104 self' = init /\
    (forall a, registers_get (registers (SpiSocketServer.tle92104 self')) a
               = if a =? REG_DEVID then DEVICE_ID else 0x00) /\
    pending (SpiSocketServer.tle92104 self') = (0, 0) /\
    wdg_count (SpiSocketServer.tle92104 self') = 0 /\
    (forall f, cmd_of f = 0 -> addr_of f <> REG_DEVID ->
               pending (fst (process_spi_frame (SpiSocketServer.tle92104 self') f))
               = (addr_of f, 0x00))).
  { intros devs self'. cbn [SpiSocketServer.tle92104 self'].
    split; [reflexivity |]. split; [apply init_registers_get |].
    split; [reflexivity |]. split; [reflexivity |].
    intros f Hc Ha. rewrite (process_read init f Hc). unfold pending; cbn.
    rewrite init_registers_get. apply Z.eqb_neq in Ha. rewrite Ha. reflexivity. }
  unfold SpiSocketServer.process_message. cbn [Z.eqb SpiMessageType.INIT Pos.eqb].
  destruct (truthy payload && (7 <=? length (default [] payload))%nat) eqn:E.
  - apply andb_true_iff in E as [_ E]. apply Nat.leb_le in E.
    destruct (unpack_IBBB_le_total _ E) as [[[[b m] o] d] ->].
    cbn [mbind option_bind]. eexists. split; [reflexivity | apply Hfresh].
  - cbn [mbind option_bind]. eexists. split; [reflexivity | apply Hfresh].
Qed.

(** C9. A RECEIVE message whose payload has at least two bytes [b0],
    [b1] is answered with exactly [256 * b0 + b1] zero bytes (the
    big-endian u16 of the first two payload bytes), whatever the server
    state is, and the server state is left as it was. *)
Theorem receive_zero_bytes (self : SpiSocketServer.t) (device_id : Z) (p : bytes) :
  (2 <= length p)%nat ->
  exists b0 b1,
    take 2 p = [b0; b1] /\
    SpiSocketServer.process_message self SpiMessageType.RECEIVE device_id (Some p)
    = Some (self, replicate (Z.to_nat (256 * byte_to_Z b0 + byte_to_Z b1)) x00).
Proof.
  intros H. destruct p as [| b0 [| b1 rest]]; [cbn in H; lia | cbn in H; lia |].
  exists b0, b1. split; [reflexivity |].
  unfold SpiSocketServer.process_message.
  cbn [Z.eqb SpiMessageType.INIT SpiMessageType.DEINIT SpiMessageType.TRANSFER
       SpiMessageType.SEND SpiMessageType.RECEIVE Pos.eqb].
  cbn [truthy default from_option id andb length Nat.leb take unpack_H_be
       mbind option_bind].
  rewrite be_u16 by apply byte_to_Z_range. reflexivity.
Qed.

Lemma receive_zero_bytes_witness :
  exists b0 b1,
    take 2 [x00; x05] = [b0; b1] /\
    SpiSocketServer.process_message SpiSocketServer.init SpiMessageType.RECEIVE 0
      (Some [x00; x05])
    = Some (SpiSocketServer.init,
            replicate (Z.to_nat (256 * byte_to_Z b0 + byte_to_Z b1)) x00).
Proof. apply (receive_zero_bytes SpiSocketServer.init 0 [x00; x05]). cbn. lia. Defined.

(** C10. A message whose type is not INIT, TRANSFER or SEND (so DEINIT,
    RECEIVE, SET_CONFIG, GET_STATUS or any unknown type) is always
    answered, and the simulator after it (register table, pending pair,
    watchdog count) is the simulator before it. *)
Theorem other_messages_keep_simulator
    (self : SpiSocketServer.t) (msg_type device_id : Z) (payload : option bytes) :
  msg_type <> SpiMessageType.INIT ->
  msg_type <> SpiMessageType.TRANSFER ->
  msg_type <> SpiMessageType.SEND ->
  exists self' response,
    SpiSocketServer.process_message self msg_type device_id payload
      = Some (self', response) /\
    SpiSocketServer.tle92104 self' = SpiSocketServer.tle92104 self.
Proof.
  intros Hi Ht Hs. unfold SpiSocketServer.process_message.
  apply Z.eqb_neq in Hi, Ht, Hs. rewrite Hi, Ht, Hs.
  destruct (msg_type =? SpiMessageType.DEINIT).
  { answered. }
  destruct (msg_type =? SpiMessageType.RECEIVE).
  { destruct (truthy payload && (2 <=? length (default [] payload))%nat) eqn:E.
    - apply andb_true_iff in E as [_ E]. apply Nat.leb_le in E.
      destruct (default [] payload) as [| b0 [| b1 rest]];
        [cbn in E; lia | cbn in E; lia |].
      answered.
    - answered. }
  destruct (msg_type =? SpiMessageType.SET_CONFIG).
  { destruct (truthy payload && (7 <=? length (default [] payload))%nat) eqn:E.
    - apply andb_true_iff in E as [_ E]. apply Nat.leb_le in E.
      destruct (unpack_IBBB_le_total _ E) as [[[[b m] o] d] ->].
      answered.
    - answered. }
  destruct (msg_type =? SpiMessageType.GET_STATUS).
  { answered. }
  answered.
Qed.

Lemma other_messages_keep_simulator_witness :
  exists self' response,
    SpiSocketServer.process_message
      {| SpiSocketServer.tle92104 := state_after init [0x6554; 0x2400];
         SpiSocketServer.spi_devices := ∅ |}
      SpiMessageType.SET_CONFIG 1 (Some [x01; x02; x03; x04; x05; x06; x07])
      = Some (self', response) /\
    SpiSocketServer.tle92104 self' = state_after init [0x6554; 0x2400].
Proof.
  apply (other_messages_keep_simulator
           {| SpiSocketServer.tle92104 := state_after init [0x6554; 0x2400];
              SpiSocketServer.spi_devices := ∅ |}
           SpiMessageType.SET_CONFIG 1 (Some [x01; x02; x03; x04; x05; x06; x07]));
    vm_compute; discriminate.
Defined.

(** ** The register file as a function of the frames fed *)

Lemma registers_get_step s f a :
  registers_get (registers (fst (process_spi_frame s f))) a =
  if (cmd_of f =? 0x01) && (addr_of f =? a) && negb (a =? REG_DEVID)
  then data_of f
  else registers_get (registers s) a.
Proof.
  unfold process_spi_frame; cbn [fst].
  fold (cmd_of f) (addr_of f) (data_of f).
  destruct (cmd_of f =? 0x00) eqn:E0.
  { apply Z.eqb_eq in E0. rewrite E0. reflexivity. }
  destruct (cmd_of f =? 0x01) eqn:E1; [| reflexivity].
  cbn [andb]. destruct (Z.eqb_spec (addr_of f) REG_DEVID) as [E8 | E8]; cbn [negb registers].
  - destruct (Z.eqb_spec (addr_of f) a) as [Ea | Ea]; [| reflexivity].
    subst a. rewrite E8. reflexivity.
  - unfold registers_get.
    destruct (Z.eqb_spec (addr_of f) a) as [Ea | Ea].
    + subst a. apply Z.eqb_neq in E8. rewrite E8. cbn [negb andb].
      rewrite lookup_insert_eq. reflexivity.
    + cbn [andb]. rewrite lookup_insert_ne by exact Ea. reflexivity.
Qed.

Lemma registers_get_state_after s fs a :
  a <> REG_DEVID ->
  registers_get (registers (state_after s fs)) a =
  default (registers_get (registers s) a) (last_write a fs).
Proof.
  intros Ha. apply Z.eqb_neq in Ha.
  revert s. induction fs as [| f fs IH]; intros s; [reflexivity |].
  rewrite state_after_cons, IH. cbn [last_write].
  destruct (last_write a fs) as [d |]; [reflexivity |]. cbn [default from_option id].
  rewrite registers_get_step, Ha, andb_true_r.
  destruct ((cmd_of f =? 0x01) && (addr_of f =? a)); reflexivity.
Qed.

(** X1. Last write wins. Starting from any simulator and for any
    address other than 0x08, after any list of frames the value a READ
    finds under the address is the data byte of the last WRITE frame
    aimed at it, or the value held before if the list has none; the READ
    leaves exactly that pair pending. *)
Theorem register_last_write (s : TLE92104Simulator.t) (fs : list Z) (f : Z) :
  cmd_of f = 0 ->
  addr_of f <> REG_DEVID ->
  pending (fst (process_spi_frame (state_after s fs) f)) =
  (addr_of f,
   default (registers_get (registers s) (addr_of f)) (last_write (addr_of f) fs)).
Proof.
  intros Hc Ha. rewrite (process_read _ f Hc). unfold pending; cbn.
  rewrite (registers_get_state_after s fs _ Ha). reflexivity.
Qed.

Lemma register_last_write_witness :
  pending (fst (process_spi_frame
                  (state_after init [0x4454; 0x6554; 0x44A8; 0x0400; 0x6400]) 0x0400)) =
  (addr_of 0x0400,
   default (registers_get (registers init) (addr_of 0x0400))
           (last_write (addr_of 0x0400) [0x4454; 0x6554; 0x44A8; 0x0400; 0x6400])).
Proof.
  apply (register_last_write init [0x4454; 0x6554; 0x44A8; 0x0400; 0x6400] 0x0400).
  - reflexivity.
  - vm_compute. discriminate.
Defined.

(** ** The watchdog counter *)

Lemma wdg_count_step s f :
  wdg_count (fst (process_spi_frame s f)) =
  wdg_count s + (if (cmd_of f =? 0x01) && (addr_of f =? REG_WDG) then 1 else 0).
Proof.
  unfold process_spi_frame; cbn [fst].
  fold (cmd_of f) (addr_of f) (data_of f).
  destruct (cmd_of f =? 0x00) eqn:E0.
  { apply Z.eqb_eq in E0. rewrite E0. cbn. lia. }
  destruct (cmd_of f =? 0x01); [| cbn; lia].
  cbn [andb]. destruct (Z.eqb_spec (addr_of f) REG_DEVID) as [E8 | E8]; cbn [negb wdg_count].
  - rewrite E8. cbn. lia.
  - destruct (addr_of f =? REG_WDG); lia.
Qed.

(** X2. The watchdog counter counts exactly the WRITE frames aimed at
    address 0x05: after any list of frames it has grown by the number of
    such frames, so it never decreases and nothing else moves it. *)
Theorem wdg_count_counts (s : TLE92104Simulator.t) (fs : list Z) :
  wdg_count (state_after s fs) = wdg_count s + wdg_writes fs /\
  wdg_count s <= wdg_count (state_after s fs).
Proof.
  assert (H : wdg_count (state_after s fs) = wdg_count s + wdg_writes fs).
  { revert s. induction fs as [| f fs IH]; intros s.
    - rewrite state_after_nil. unfold wdg_writes. cbn. lia.
    - rewrite state_after_cons, IH, wdg_count_step. unfold wdg_writes.
      cbn [List.filter]. destruct ((cmd_of f =? 0x01) && (addr_of f =? REG_WDG));
        cbn [length]; lia. }
  split; [exact H |]. rewrite H. unfold wdg_writes. lia.
Qed.

(** ** Unknown commands and READs *)

(** X3. A frame that is not a WRITE (cmd 0, 2 or 3) changes neither the
    register table nor the watchdog counter. A frame with cmd 2 or 3 is
    still answered with the pending pair, and it resets that pair: the
    call after it returns the all-zero frame, whatever was pending. *)
Theorem non_write_frames (s : TLE92104Simulator.t) (f g : Z) :
  cmd_of f <> 1 ->
  let s' := fst (process_spi_frame s f) in
  registers s' = registers s /\
  wdg_count s' = wdg_count s /\
  snd (process_spi_frame s f) = build_response (last_response_addr s) (last_response_data s) /\
  (cmd_of f <> 0 -> pending s' = (0, 0) /\ snd (process_spi_frame s' g) = 0).
Proof.
  intros Hc s'. subst s'. unfold process_spi_frame; cbn [fst snd].
  fold (cmd_of f) (addr_of f) (data_of f).
  apply Z.eqb_neq in Hc. rewrite Hc.
  destruct (Z.eqb_spec (cmd_of f) 0) as [E0 | E0]; cbn.
  - repeat split; congruence.
  - repeat split.
Qed.

Lemma non_write_frames_witness :
  let s := state_after init [0x6554; 0x2400] in
  let s' := fst (process_spi_frame s 0xC000) in
  registers s' = registers s /\
  wdg_count s' = wdg_count s /\
  snd (process_spi_frame s 0xC000)
    = build_response (last_response_addr s) (last_response_data s) /\
  (cmd_of 0xC000 <> 0 -> pending s' = (0, 0) /\ snd (process_spi_frame s' 0x2400) = 0).
Proof.
  apply (non_write_frames (state_after init [0x6554; 0x2400]) 0xC000 0x2400).
  vm_compute. discriminate.
Defined.

(** ** The register table stays inside the 4-bit address space *)

Lemma table_bounded_init : table_bounded (registers init).
Proof.
  split.
  - intros a v. unfold init; cbn [registers].
    unfold REG_CTRL1, REG_CTRL2, REG_CTRL3, REG_CFG, REG_DIAG, REG_WDG,
      REG_ICR, REG_HWCR, REG_DEVID, DEVICE_ID.
    repeat (rewrite lookup_insert; case_decide; [intros [= <-]; lia |]).
    rewrite lookup_empty. discriminate.
  - intros a Ha. unfold init; cbn [registers].
    unfold REG_CTRL1, REG_CTRL2, REG_CTRL3, REG_CFG, REG_DIAG, REG_WDG,
      REG_ICR, REG_HWCR, REG_DEVID, DEVICE_ID.
    repeat (rewrite lookup_insert; case_decide; [eexists; reflexivity |]).
    lia.
Qed.

Lemma table_bounded_step s f :
  table_bounded (registers s) -> table_bounded (registers (fst (process_spi_frame s f))).
Proof.
  intros [Hb Hd]. unfold process_spi_frame; cbn [fst].
  pose proof (land_15_range (Z.shiftr f ADDR_SHIFT)) as Haddr.
  pose proof (land_255_range (Z.shiftr f DATA_SHIFT)) as Hdata.
  destruct (_ =? 0x00); [split; assumption |].
  destruct (_ =? 0x01); [| split; assumption].
  destruct (negb _); cbn [registers]; [| split; assumption].
  split.
  - intros a v. rewrite lookup_insert. case_decide.
    + intros [= <-]. subst a. lia.
    + apply Hb.
  - intros a Ha. rewrite lookup_insert. case_decide; [eexists; reflexivity | apply Hd, Ha].
Qed.

(** X4. Whatever frames a fresh simulator is fed, its register table
    only ever has entries for addresses 0..15, every entry is a byte, and
    the nine initial addresses 0..8 never lose their entry. *)
Theorem register_table_bounded (fs : list Z) :
  (forall a v, registers (state_after init fs) !! a = Some v ->
               0 <= a <= 15 /\ 0 <= v <= 255) /\
  (forall a, 0 <= a <= 8 -> is_Some (registers (state_after init fs) !! a)).
Proof.
  change (table_bounded (registers (state_after init fs))).
  generalize table_bounded_init. generalize init.
  induction fs as [| f fs IH]; intros s H; [exact H |].
  rewrite state_after_cons. apply IH, table_bounded_step, H.
Qed.

(** ** The response codec *)

(** X5. Building a response frame from any two integers and reading its
    address and data fields back gives the integers' low four and low
    eight bits: inside the field widths the codec is a round trip. *)
Theorem response_round_trip (a d : Z) :
  decode (build_response a d) = (Z.land a 0x0F, Z.land d 0xFF) /\
  (0 <= a < 16 -> 0 <= d < 256 -> decode (build_response a d) = (a, d)).
Proof.
  split.
  - rewrite build_response_masked.
    apply decode_build_response; [apply land_15_range | apply land_255_range].
  - apply decode_build_response.
Qed.

(** ** Transfers as lists of frames *)

Lemma bytearray_append_byte_of_Z (response : bytes) (v : Z) :
  bytearray_append response v = (b ← byte_of_Z v; Some (response ++ [b])).
Proof. unfold bytearray_append, byte_of_Z. destruct (_ && _); reflexivity. Qed.

Lemma byte_of_Z_masked (x : Z) : is_Some (byte_of_Z (Z.land x 0xFF)).
Proof.
  destruct (bytearray_append_masked [] x) as [b Hb].
  rewrite bytearray_append_byte_of_Z in Hb.
  destruct (byte_of_Z (Z.land x 0xFF)); [eexists; reflexivity | discriminate].
Qed.

Lemma frames_bytes_total (rs : list Z) :
  exists out, frames_bytes rs = Some out /\ length out = (2 * length rs)%nat.
Proof.
  induction rs as [| r rs (out & Hout & Hlen)]; [exists []; split; reflexivity |].
  cbn [frames_bytes].
  destruct (byte_of_Z_masked (Z.shiftr r 8)) as [hi ->].
  destruct (byte_of_Z_masked r) as [lo ->].
  rewrite Hout. cbn [mbind option_bind].
  eexists. split; [reflexivity |]. cbn [length]. lia.
Qed.

Lemma frames_bytes_app (rs1 rs2 : list Z) :
  frames_bytes (rs1 ++ rs2) =
  (o1 ← frames_bytes rs1; o2 ← frames_bytes rs2; Some (o1 ++ o2)).
Proof.
  induction rs1 as [| r rs1 IH]; cbn [app frames_bytes].
  - cbn. destruct (frames_bytes rs2); reflexivity.
  - destruct (byte_of_Z (Z.land (Z.shiftr r 8) 0xFF)); [| reflexivity].
    cbn [mbind option_bind].
    destruct (byte_of_Z (Z.land r 0xFF)); [| reflexivity]. cbn [mbind option_bind].
    rewrite IH. destruct (frames_bytes rs1); [| reflexivity]. cbn [mbind option_bind].
    destruct (frames_bytes rs2); reflexivity.
Qed.

Lemma state_after_app s fs1 fs2 :
  state_after s (fs1 ++ fs2) = state_after (state_after s fs1) fs2.
Proof.
  revert s. induction fs1 as [| f fs1 IH]; intros s; [reflexivity |].
  cbn [app]. rewrite !state_after_cons. apply IH.
Qed.

Lemma responses_app s fs1 fs2 :
  responses s (fs1 ++ fs2) = responses s fs1 ++ responses (state_after s fs1) fs2.
Proof.
  revert s. induction fs1 as [| f fs1 IH]; intros s; [reflexivity |].
  cbn [app]. rewrite !responses_cons, state_after_cons, IH. reflexivity.
Qed.

Lemma frames_of_app (p1 p2 : bytes) :
  Nat.even (length p1) = true -> frames_of (p1 ++ p2) = frames_of p1 ++ frames_of p2.
Proof.
  induction p1 as [| b | b0 b1 rest IH] using pair_ind; intros H.
  - reflexivity.
  - discriminate.
  - cbn [app frames_of]. f_equal. apply IH. exact H.
Qed.

Lemma frames_of_snoc (p : bytes) (b : byte) :
  Nat.even (length p) = true -> frames_of (p ++ [b]) = frames_of p.
Proof. intros H. rewrite frames_of_app by exact H. apply app_nil_r. Qed.

Lemma frames_of_length (p : bytes) :
  (2 * length (frames_of p) + Nat.b2n (Nat.odd (length p)))%nat = length p.
Proof.
  induction p as [| b | b0 b1 rest IH] using pair_ind; [reflexivity | reflexivity |].
  cbn [frames_of length]. rewrite Nat.odd_succ_succ. lia.
Qed.

Lemma transfer_loop_frames (p : bytes) :
  forall sim response,
    SpiSocketServer.transfer_loop sim response p =
    (out ← frames_bytes (responses sim (frames_of p));
     Some (state_after sim (frames_of p), response ++ out)).
Proof.
  induction p as [| b | b0 b1 rest IH] using pair_ind; intros sim response.
  - cbn. rewrite app_nil_r. reflexivity.
  - cbn. rewrite app_nil_r. reflexivity.
  - cbn [SpiSocketServer.transfer_loop frames_of].
    rewrite responses_cons, state_after_cons.
    destruct (process_spi_frame sim _) as [sim1 rx]. cbn [fst snd frames_bytes].
    rewrite !bytearray_append_byte_of_Z.
    destruct (byte_of_Z (Z.land (Z.shiftr rx 8) 0xFF)) as [hi |]; [| reflexivity].
    cbn [mbind option_bind]. rewrite bytearray_append_byte_of_Z.
    destruct (byte_of_Z (Z.land rx 0xFF)) as [lo |]; [| reflexivity].
    cbn [mbind option_bind]. rewrite IH.
    destruct (frames_bytes _) as [out |]; [| reflexivity].
    cbn [mbind option_bind]. rewrite <- !app_assoc. reflexivity.
Qed.

(** What [process_spi_transfer] does with a payload of two bytes or more,
    in terms of the frames of the payload. *)
Lemma process_spi_transfer_frames self (p : bytes) :
  (2 <= length p)%nat ->
  exists out,
    frames_bytes (responses (SpiSocketServer.tle92104 self) (frames_of p)) = Some out /\
    length out = (2 * length (frames_of p))%nat /\
    SpiSocketServer.process_spi_transfer self (Some p) =
    Some ({| SpiSocketServer.tle92104 :=
               state_after (SpiSocketServer.tle92104 self) (frames_of p);
             SpiSocketServer.spi_devices := SpiSocketServer.spi_devices self |},
          out ++ (if Nat.odd (length p) then [x00] else [])).
Proof.
  intros Hlen.
  destruct (frames_bytes_total (responses (SpiSocketServer.tle92104 self) (frames_of p)))
    as (out & Hout & Hout_len).
  exists out. split; [exact Hout |].
  split; [rewrite Hout_len, responses_length; reflexivity |].
  unfold SpiSocketServer.process_spi_transfer.
  assert (Ht : truthy (Some p) = true) by (destruct p; [cbn in Hlen; lia | reflexivity]).
  rewrite Ht. cbn [negb orb].
  replace (length p <? 2)%nat with false by (symmetry; apply Nat.ltb_ge; lia).
  rewrite transfer_loop_frames, Hout. cbn [mbind option_bind app].
  rewrite even_of_nat, Nat.negb_even.
  destruct (Nat.odd (length p)).
  - rewrite bytearray_append_byte_of_Z. reflexivity.
  - rewrite app_nil_r. reflexivity.
Qed.

(** X6. A TRANSFER payload of two bytes or more is the list of its
    big-endian 16-bit frames fed to [process_spi_frame] in order: the
    simulator afterwards is the one those frames leave, the reply is their
    responses, two bytes each and high byte first, followed by one 0x00
    when the payload length is odd; the device table is not touched. *)
Theorem transfer_is_frames (self : SpiSocketServer.t) (p : bytes) :
  (2 <= length p)%nat ->
  exists out,
    frames_bytes (responses (SpiSocketServer.tle92104 self) (frames_of p)) = Some out /\
    length out = (2 * length (frames_of p))%nat /\
    SpiSocketServer.process_spi_transfer self (Some p) =
    Some ({| SpiSocketServer.tle92104 :=
               state_after (SpiSocketServer.tle92104 self) (frames_of p);
             SpiSocketServer.spi_devices := SpiSocketServer.spi_devices self |},
          out ++ (if Nat.odd (length p) then [x00] else [])).
Proof. apply process_spi_transfer_frames. Qed.

Lemma transfer_is_frames_witness :
  exists out,
    frames_bytes (responses (SpiSocketServer.tle92104 SpiSocketServer.init)
                    (frames_of [x65; x54; x24; x00; xaa])) = Some out /\
    length out = (2 * length (frames_of [x65; x54; x24; x00; xaa]))%nat /\
    SpiSocketServer.process_spi_transfer SpiSocketServer.init
      (Some [x65; x54; x24; x00; xaa]) =
    Some ({| SpiSocketServer.tle92104 :=
               state_after (SpiSocketServer.tle92104 SpiSocketServer.init)
                 (frames_of [x65; x54; x24; x00; xaa]);
             SpiSocketServer.spi_devices :=
               SpiSocketServer.spi_devices SpiSocketServer.init |},
          out ++ (if Nat.odd (length [x65; x54; x24; x00; xaa]) then [x00] else [])).
Proof.
  apply (transfer_is_frames SpiSocketServer.init [x65; x54; x24; x00; xaa]). cbn. lia.
Defined.

Lemma odd_length_app (p1 p2 : bytes) :
  Nat.even (length p1) = true -> Nat.odd (length (p1 ++ p2)) = Nat.odd (length p2).
Proof.
  intros H. rewrite length_app, Nat.odd_add.
  rewrite <- Nat.negb_even, H. reflexivity.
Qed.

(** X7. Splitting a transfer at a frame boundary changes nothing: for
    an even-length first part of at least one frame and a second part of
    at least two bytes, one TRANSFER of both parts together leaves the
    same server and gives the same reply bytes as a TRANSFER of the first
    part followed by a TRANSFER of the second. *)
Theorem transfer_split (self : SpiSocketServer.t) (p1 p2 : bytes) :
  Nat.even (length p1) = true ->
  (2 <= length p1)%nat ->
  (2 <= length p2)%nat ->
  SpiSocketServer.process_spi_transfer self (Some (p1 ++ p2)) =
  ('(s1, o1) ← SpiSocketServer.process_spi_transfer self (Some p1);
   '(s2, o2) ← SpiSocketServer.process_spi_transfer s1 (Some p2);
   Some (s2, o1 ++ o2)).
Proof.
  intros Heven H1 H2.
  assert (Hodd : Nat.odd (length p1) = false)
    by (rewrite <- Nat.negb_even, Heven; reflexivity).
  assert (H12 : (2 <= length (p1 ++ p2))%nat) by (rewrite length_app; lia).
  destruct (process_spi_transfer_frames self (p1 ++ p2) H12) as (o & Ho & _ & ->).
  destruct (process_spi_transfer_frames self p1 H1) as (o1 & Ho1 & _ & ->).
  cbn [mbind option_bind]. rewrite Hodd, app_nil_r.
  match goal with |- _ = SpiSocketServer.process_spi_transfer ?s _ ≫= _ =>
    destruct (process_spi_transfer_frames s p2 H2) as (o2 & Ho2 & _ & ->) end.
  cbn [mbind option_bind SpiSocketServer.tle92104 SpiSocketServer.spi_devices] in *.
  rewrite frames_of_app, responses_app, frames_bytes_app, Ho1, Ho2 in Ho by exact Heven.
  cbn [mbind option_bind] in Ho. injection Ho as <-.
  rewrite frames_of_app, state_after_app, odd_length_app by exact Heven.
  rewrite app_assoc. reflexivity.
Qed.

Lemma transfer_split_witness :
  SpiSocketServer.process_spi_transfer SpiSocketServer.init
    (Some ([x65; x54; x24; x00] ++ [x20; x00; xaa])) =
  ('(s1, o1) ← SpiSocketServer.process_spi_transfer SpiSocketServer.init
                 (Some [x65; x54; x24; x00]);
   '(s2, o2) ← SpiSocketServer.process_spi_transfer s1 (Some [x20; x00; xaa]);
   Some (s2, o1 ++ o2)).
Proof.
  apply (transfer_split SpiSocketServer.init [x65; x54; x24; x00] [x20; x00; xaa]).
  - reflexivity.
  - cbn. lia.
  - cbn. lia.
Defined.

(** X8. The odd byte at the end of a transfer is ignored: appending any
    one byte to an even-length payload of at least one frame leaves the
    same server as the payload alone, and the reply is the payload's
    reply followed by 0x00, whatever the byte is. *)
Theorem transfer_trailing_byte (self : SpiSocketServer.t) (p : bytes) (b : byte) :
  Nat.even (length p) = true ->
  (2 <= length p)%nat ->
  SpiSocketServer.process_spi_transfer self (Some (p ++ [b])) =
  ('(s, o) ← SpiSocketServer.process_spi_transfer self (Some p); Some (s, o ++ [x00])).
Proof.
  intros Heven Hlen.
  assert (Hodd : Nat.odd (length p) = false)
    by (rewrite <- Nat.negb_even, Heven; reflexivity).
  assert (Hlen' : (2 <= length (p ++ [b]))%nat) by (rewrite length_app; lia).
  destruct (process_spi_transfer_frames self (p ++ [b]) Hlen') as (o' & Ho' & _ & ->).
  destruct (process_spi_transfer_frames self p Hlen) as (o & Ho & _ & ->).
  cbn [mbind option_bind]. rewrite Hodd, app_nil_r.
  rewrite frames_of_snoc in Ho' by exact Heven.
  rewrite Ho in Ho'. injection Ho' as <-.
  rewrite frames_of_snoc, odd_length_app by exact Heven.
  reflexivity.
Qed.

Lemma transfer_trailing_byte_witness :
  SpiSocketServer.process_spi_transfer SpiSocketServer.init (Some ([x20; x00] ++ [xaa])) =
  ('(s, o) ← SpiSocketServer.process_spi_transfer SpiSocketServer.init (Some [x20; x00]);
   Some (s, o ++ [x00])).
Proof.
  apply (transfer_trailing_byte SpiSocketServer.init [x20; x00] xaa).
  - reflexivity.
  - cbn. lia.
Defined.

(** ** Replies of the dispatcher *)

Lemma lor_low_high (x z k : Z) :
  0 <= k -> 0 <= x < 2 ^ k -> Z.lor x (2 ^ k * z) = x + 2 ^ k * z.
Proof.
  intros Hk Hx. rewrite <- Z.add_nocarry_lor; [reflexivity |].
  apply Z.bits_inj'. intros n Hn. rewrite Z.land_spec, Z.bits_0.
  destruct (Z.ltb_spec n k) as [Hlo | Hhi].
  - rewrite (Z.mul_comm (2 ^ k) z), Z.mul_pow2_bits_low by lia. apply andb_false_r.
  - rewrite <- (Z.mod_small x (2 ^ k)) by lia.
    rewrite Z.mod_pow2_bits_high by lia. reflexivity.
Qed.

Lemma le_u32 (a b c d : Z) :
  0 <= a < 256 -> 0 <= b < 256 -> 0 <= c < 256 ->
  Z.lor a (Z.lor (Z.shiftl b 8) (Z.lor (Z.shiftl c 16) (Z.shiftl d 24))) =
  a + 256 * b + 65536 * c + 16777216 * d.
Proof.
  intros Ha Hb Hc. rewrite !Z.shiftl_mul_pow2 by lia.
  replace (d * 2 ^ 24) with (2 ^ 24 * d) by lia.
  rewrite (lor_low_high (c * 2 ^ 16) d 24) by lia.
  replace (c * 2 ^ 16 + 2 ^ 24 * d) with (2 ^ 16 * (c + 256 * d)) by lia.
  rewrite (lor_low_high (b * 2 ^ 8) _ 16) by lia.
  replace (b * 2 ^ 8 + 2 ^ 16 * (c + 256 * d)) with (2 ^ 8 * (b + 256 * (c + 256 * d))) by lia.
  rewrite (lor_low_high a _ 8) by lia. lia.
Qed.

Lemma unpack_IBBB_le_config (b0 b1 b2 b3 b4 b5 b6 : byte) (rest : bytes) :
  unpack_IBBB_le (take 7 (b0 :: b1 :: b2 :: b3 :: b4 :: b5 :: b6 :: rest)) =
  Some (byte_to_Z b0 + 256 * byte_to_Z b1 + 65536 * byte_to_Z b2 + 16777216 * byte_to_Z b3,
        byte_to_Z b4, byte_to_Z b5, byte_to_Z b6).
Proof.
  cbn [take unpack_IBBB_le].
  rewrite le_u32 by apply byte_to_Z_range. reflexivity.
Qed.

(** A transfer never raises; its reply is as long as the payload and it
    leaves the device table alone. *)
Lemma process_spi_transfer_reply self (payload : option bytes) :
  exists self' out,
    SpiSocketServer.process_spi_transfer self payload = Some (self', out) /\
    length out = length (default [] payload) /\
    SpiSocketServer.spi_devices self' = SpiSocketServer.spi_devices self /\
    (truthy payload = false -> self' = self).
Proof.
  destruct payload as [p |]; [| exists self, []; repeat split].
  cbn [default from_option id].
  destruct (Nat.lt_ge_cases (length p) 2) as [Hshort | Hlong].
  - exists self, p.
    destruct p as [| b [| c p]]; [| | cbn in Hshort; lia]; repeat split.
  - destruct (process_spi_transfer_frames self p Hlong) as (out & _ & Hlen & ->).
    eexists _, _. split; [reflexivity |]. split; [| split; [reflexivity |]].
    + rewrite length_app, Hlen. pose proof (frames_of_length p) as H.
      destruct (Nat.odd (length p)); cbn [length Nat.b2n] in *; lia.
    + destruct p; [cbn in Hlong; lia | discriminate].
Qed.

Lemma process_message_reply self (msg_type device_id : Z) (payload : option bytes) :
  exists self' response,
    SpiSocketServer.process_message self msg_type device_id payload = Some (self', response) /\
    length response = reply_length msg_type payload.
Proof.
  unfold SpiSocketServer.process_message, reply_length.
  destruct (Z.eqb_spec msg_type SpiMessageType.INIT) as [-> | _].
  { cbn [Z.eqb SpiMessageType.INIT SpiMessageType.TRANSFER SpiMessageType.RECEIVE
         SpiMessageType.GET_STATUS Pos.eqb].
    destruct (truthy payload && (7 <=? length (default [] payload))%nat) eqn:E.
    - apply andb_true_iff in E as [_ E]. apply Nat.leb_le in E.
      destruct (unpack_IBBB_le_total _ E) as [[[[b m] o] d] ->]. answered.
    - answered. }
  destruct (Z.eqb_spec msg_type SpiMessageType.DEINIT) as [-> | _]; [answered |].
  destruct (Z.eqb_spec msg_type SpiMessageType.TRANSFER) as [-> | _].
  { destruct (process_spi_transfer_reply self payload) as (self' & out & -> & Hlen & _).
    eexists _, _. split; [reflexivity | exact Hlen]. }
  destruct (Z.eqb_spec msg_type SpiMessageType.SEND) as [-> | _].
  { cbn [Z.eqb SpiMessageType.SEND SpiMessageType.RECEIVE SpiMessageType.GET_STATUS Pos.eqb].
    destruct (truthy payload); [| answered].
    destruct (process_spi_transfer_reply self payload) as (self' & out & -> & _).
    answered. }
  destruct (Z.eqb_spec msg_type SpiMessageType.RECEIVE) as [-> | _].
  { destruct payload as [[| b0 [| b1 rest]] |]; [answered | answered | | answered].
    cbn [truthy default from_option id andb length Nat.leb take unpack_H_be
         mbind option_bind].
    rewrite be_u16 by apply byte_to_Z_range.
    eexists _, _. split; [reflexivity |]. apply length_replicate. }
  destruct (Z.eqb_spec msg_type SpiMessageType.SET_CONFIG) as [-> | _].
  { cbn [Z.eqb SpiMessageType.SET_CONFIG SpiMessageType.GET_STATUS Pos.eqb].
    destruct (truthy payload && (7 <=? length (default [] payload))%nat) eqn:E.
    - apply andb_true_iff in E as [_ E]. apply Nat.leb_le in E.
      destruct (unpack_IBBB_le_total _ E) as [[[[b m] o] d] ->]. answered.
    - answered. }
  destruct (Z.eqb_spec msg_type SpiMessageType.GET_STATUS) as [-> | _]; answered.
Qed.

Lemma reply_length_bound (msg_type : Z) (payload : option bytes) :
  Z.of_nat (length (default [] payload)) <= 65535 ->
  Z.of_nat (reply_length msg_type payload) <= 65535.
Proof.
  intros H. unfold reply_length.
  destruct (_ =? SpiMessageType.TRANSFER); [exact H |].
  destruct (_ =? SpiMessageType.RECEIVE).
  - destruct (default [] payload) as [| b0 [| b1 rest]]; [lia | lia |].
    pose proof (byte_to_Z_range b0). pose proof (byte_to_Z_range b1). lia.
  - destruct (_ =? SpiMessageType.GET_STATUS); lia.
Qed.

(** X9. [process_message] never raises, whatever the message type, the
    device id and the payload are. The reply has the payload's length
    for TRANSFER, the big-endian u16 of the first two payload bytes for a
    RECEIVE of two bytes or more, length 2 for GET_STATUS and length 0 in
    every other case; so a request whose payload fits the header's u16
    length field has a reply that fits it too. *)
Theorem process_message_never_raises
    (self : SpiSocketServer.t) (msg_type device_id : Z) (payload : option bytes) :
  exists self' response,
    SpiSocketServer.process_message self msg_type device_id payload = Some (self', response) /\
    length response = reply_length msg_type payload /\
    (Z.of_nat (length (default [] payload)) <= 65535 ->
     Z.of_nat (length response) <= 65535).
Proof.
  destruct (process_message_reply self msg_type device_id payload)
    as (self' & response & H & Hlen).
  exists self', response. split; [exact H |]. split; [exact Hlen |].
  rewrite Hlen. apply reply_length_bound.
Qed.

(** X10. SEND is TRANSFER with the reply thrown away: for every payload
    (absent and empty included) both leave the same server, and SEND
    answers with an empty payload. *)
Theorem send_is_silent_transfer
    (self : SpiSocketServer.t) (device_id : Z) (payload : option bytes) :
  exists self' out,
    SpiSocketServer.process_message self SpiMessageType.TRANSFER device_id payload
      = Some (self', out) /\
    SpiSocketServer.process_message self SpiMessageType.SEND device_id payload
      = Some (self', []).
Proof.
  unfold SpiSocketServer.process_message.
  cbn [Z.eqb SpiMessageType.INIT SpiMessageType.DEINIT SpiMessageType.TRANSFER
       SpiMessageType.SEND Pos.eqb].
  destruct (process_spi_transfer_reply self payload) as (self' & out & -> & _ & _ & Hsame).
  exists self', out. split; [reflexivity |].
  destruct (truthy payload); [reflexivity |].
  rewrite Hsame by reflexivity. reflexivity.
Qed.

(** ** The device table *)

Lemma process_message_init self device_id (payload : option bytes) :
  SpiSocketServer.process_message self SpiMessageType.INIT device_id payload =
  Some ({| SpiSocketServer.tle92104 := init;
           SpiSocketServer.spi_devices :=
             match payload with
             | Some (b0 :: b1 :: b2 :: b3 :: b4 :: b5 :: b6 :: _) =>
                 <[device_id := config_of b0 b1 b2 b3 b4 b5 b6 true]>
                   (SpiSocketServer.spi_devices self)
             | _ => SpiSocketServer.spi_devices self
             end |}, []).
Proof.
  unfold SpiSocketServer.process_message.
  cbn [Z.eqb SpiMessageType.INIT Pos.eqb].
  destruct payload as [[| b0 [| b1 [| b2 [| b3 [| b4 [| b5 [| b6 rest]]]]]]] |];
    try reflexivity.
  cbn [truthy default from_option id andb length Nat.leb].
  rewrite unpack_IBBB_le_config. reflexivity.
Qed.

Lemma process_message_deinit self device_id (payload : option bytes) :
  SpiSocketServer.process_message self SpiMessageType.DEINIT device_id payload =
  Some ({| SpiSocketServer.tle92104 := SpiSocketServer.tle92104 self;
           SpiSocketServer.spi_devices := delete device_id (SpiSocketServer.spi_devices self) |},
        []).
Proof.
  unfold SpiSocketServer.process_message.
  cbn [Z.eqb SpiMessageType.INIT SpiMessageType.DEINIT Pos.eqb].
  case_decide as H; [reflexivity |].
  rewrite delete_id; [reflexivity |].
  destruct (SpiSocketServer.spi_devices self !! device_id) eqn:E; [| reflexivity].
  exfalso. apply H. eexists. reflexivity.
Qed.

(** X11. INIT with a payload of seven bytes or more stores, under the
    message's device id, the configuration its first seven bytes stand
    for (baudrate as a little-endian u32, then mode, bit order and data
    bits), marked initialized, replacing any earlier one; with a shorter
    or absent payload the device table is left as it is. No other
    device's entry changes, and the reply is empty. *)
Theorem init_registers_device
    (self : SpiSocketServer.t) (device_id : Z) (payload : option bytes) :
  exists self',
    SpiSocketServer.process_message self SpiMessageType.INIT device_id payload
      = Some (self', []) /\
    SpiSocketServer.spi_devices self' !! device_id =
      match payload with
      | Some (b0 :: b1 :: b2 :: b3 :: b4 :: b5 :: b6 :: _) =>
          Some (config_of b0 b1 b2 b3 b4 b5 b6 true)
      | _ => SpiSocketServer.spi_devices self !! device_id
      end /\
    (forall d, d <> device_id ->
       SpiSocketServer.spi_devices self' !! d = SpiSocketServer.spi_devices self !! d).
Proof.
  eexists. split; [apply process_message_init |]. cbn [SpiSocketServer.spi_devices].
  destruct payload as [[| b0 [| b1 [| b2 [| b3 [| b4 [| b5 [| b6 rest]]]]]]] |];
    try (split; [reflexivity | intros; reflexivity]).
  split; [apply lookup_insert_eq |].
  intros d Hd. apply lookup_insert_ne. congruence.
Qed.

(** X12. SET_CONFIG never adds or removes a device. For a device that
    has an entry and a payload of seven bytes or more, the entry's four
    settings become those of the payload while its initialized flag is
    kept; in every other case the table is unchanged. No other device's
    entry changes, and the reply is empty. *)
Theorem set_config_updates_known
    (self : SpiSocketServer.t) (device_id : Z) (payload : option bytes) :
  exists self',
    SpiSocketServer.process_message self SpiMessageType.SET_CONFIG device_id payload
      = Some (self', []) /\
    dom (SpiSocketServer.spi_devices self') = dom (SpiSocketServer.spi_devices self) /\
    SpiSocketServer.spi_devices self' !! device_id =
      match payload with
      | Some (b0 :: b1 :: b2 :: b3 :: b4 :: b5 :: b6 :: _) =>
          (fun cfg => config_of b0 b1 b2 b3 b4 b5 b6 (SpiSocketServer.initialized cfg))
            <$> SpiSocketServer.spi_devices self !! device_id
      | _ => SpiSocketServer.spi_devices self !! device_id
      end /\
    (forall d, d <> device_id ->
       SpiSocketServer.spi_devices self' !! d = SpiSocketServer.spi_devices self !! d).
Proof.
  unfold SpiSocketServer.process_message.
  cbn [Z.eqb SpiMessageType.INIT SpiMessageType.DEINIT SpiMessageType.TRANSFER
       SpiMessageType.SEND SpiMessageType.RECEIVE SpiMessageType.SET_CONFIG Pos.eqb].
  destruct payload as [[| b0 [| b1 [| b2 [| b3 [| b4 [| b5 [| b6 rest]]]]]]] |];
    try (eexists; split; [reflexivity |]; split; [reflexivity |];
         split; [reflexivity | intros; reflexivity]).
  cbn [truthy default from_option id andb length Nat.leb].
  rewrite unpack_IBBB_le_config. cbn [mbind option_bind].
  eexists. split; [reflexivity |]. cbn [SpiSocketServer.spi_devices].
  destruct (SpiSocketServer.spi_devices self !! device_id) as [cfg |] eqn:E.
  - split; [apply dom_insert_lookup_L; eexists; exact E |].
    split; [rewrite lookup_insert_eq; reflexivity |].
    intros d Hd. apply lookup_insert_ne. congruence.
  - split; [reflexivity |]. split; [rewrite E; reflexivity | intros; reflexivity].
Qed.

(** X13. DEINIT removes the entry of its device id, if there is one,
    and nothing else: afterwards the device has no entry, every other
    device's entry and the simulator are as before, and the reply is
    empty, whatever the payload. *)
Theorem deinit_removes_device
    (self : SpiSocketServer.t) (device_id : Z) (payload : option bytes) :
  exists self',
    SpiSocketServer.process_message self SpiMessageType.DEINIT device_id payload
      = Some (self', []) /\
    SpiSocketServer.spi_devices self' !! device_id = None /\
    (forall d, d <> device_id ->
       SpiSocketServer.spi_devices self' !! d = SpiSocketServer.spi_devices self !! d) /\
    SpiSocketServer.tle92104 self' = SpiSocketServer.tle92104 self.
Proof.
  eexists. split; [apply process_message_deinit |]. cbn.
  split; [apply lookup_delete_eq |]. split; [| reflexivity].
  intros d Hd. apply lookup_delete_ne. congruence.
Qed.

(** X14. INIT followed by DEINIT for a device that had no entry puts
    the device table back as it was, whatever the two payloads are; the
    simulator, however, is a fresh one. *)
Theorem init_then_deinit
    (self : SpiSocketServer.t) (device_id : Z) (payload payload' : option bytes) :
  SpiSocketServer.spi_devices self !! device_id = None ->
  serve self [(SpiMessageType.INIT, device_id, payload);
              (SpiMessageType.DEINIT, device_id, payload')] =
  Some ({| SpiSocketServer.tle92104 := init;
           SpiSocketServer.spi_devices := SpiSocketServer.spi_devices self |}, [[]; []]).
Proof.
  intros Hnone. cbn [serve].
  rewrite process_message_init. cbn [mbind option_bind].
  rewrite process_message_deinit. cbn [mbind option_bind].
  cbn [SpiSocketServer.tle92104 SpiSocketServer.spi_devices].
  do 3 f_equal.
  destruct payload as [[| b0 [| b1 [| b2 [| b3 [| b4 [| b5 [| b6 rest]]]]]]] |];
    try (apply delete_id; exact Hnone).
  rewrite delete_insert_eq. apply delete_id. exact Hnone.
Qed.

Lemma init_then_deinit_witness :
  serve SpiSocketServer.init
    [(SpiMessageType.INIT, 3, Some [x40; x42; x0f; x00; x00; x00; x08]);
     (SpiMessageType.DEINIT, 3, None)] =
  Some ({| SpiSocketServer.tle92104 := init;
           SpiSocketServer.spi_devices :=
             SpiSocketServer.spi_devices SpiSocketServer.init |}, [[]; []]).
Proof.
  apply (init_then_deinit SpiSocketServer.init 3
           (Some [x40; x42; x0f; x00; x00; x00; x08]) None).
  reflexivity.
Defined.

(** X15. Only INIT, DEINIT and SET_CONFIG touch the device table: a
    message of any other type (TRANSFER, SEND, RECEIVE, GET_STATUS or an
    unknown one) is answered and leaves every device's entry as it was. *)
Theorem other_messages_keep_devices
    (self : SpiSocketServer.t) (msg_type device_id : Z) (payload : option bytes) :
  msg_type <> SpiMessageType.INIT ->
  msg_type <> SpiMessageType.DEINIT ->
  msg_type <> SpiMessageType.SET_CONFIG ->
  exists self' response,
    SpiSocketServer.process_message self msg_type device_id payload
      = Some (self', response) /\
    SpiSocketServer.spi_devices self' = SpiSocketServer.spi_devices self.
Proof.
  intros Hi Hd Hs. unfold SpiSocketServer.process_message.
  apply Z.eqb_neq in Hi, Hd, Hs. rewrite Hi, Hd, Hs.
  destruct (msg_type =? SpiMessageType.TRANSFER).
  { destruct (process_spi_transfer_reply self payload) as (self' & out & -> & _ & H & _).
    eexists _, _. split; [reflexivity | exact H]. }
  destruct (msg_type =? SpiMessageType.SEND).
  { destruct (truthy payload); [| answered].
    destruct (process_spi_transfer_reply self payload) as (self' & out & -> & _ & H & _).
    eexists _, _. split; [reflexivity | exact H]. }
  destruct (msg_type =? SpiMessageType.RECEIVE).
  { destruct payload as [[| b0 [| b1 rest]] |]; answered. }
  destruct (msg_type =? SpiMessageType.GET_STATUS); answered.
Qed.

Lemma other_messages_keep_devices_witness :
  exists self' response,
    SpiSocketServer.process_message SpiSocketServer.init SpiMessageType.TRANSFER 1
      (Some [x65; x54]) = Some (self', response) /\
    SpiSocketServer.spi_devices self' = SpiSocketServer.spi_devices SpiSocketServer.init.
Proof.
  apply (other_messages_keep_devices SpiSocketServer.init SpiMessageType.TRANSFER 1
           (Some [x65; x54])); vm_compute; discriminate.
Defined.

(** ** Message headers *)

Lemma byte_of_Z_ok (v : Z) :
  0 <= v < 256 -> exists b, byte_of_Z v = Some b /\ byte_to_Z b = v.
Proof.
  intros H. unfold byte_of_Z.
  replace ((0 <=? v) && (v <? 256)) with true
    by (symmetry; apply andb_true_iff; split; [apply Z.leb_le | apply Z.ltb_lt]; lia).
  destruct (Byte.of_N (Z.to_N v)) as [b |] eqn:E.
  - exists b. split; [reflexivity |]. unfold byte_to_Z.
    rewrite (Byte.to_of_N _ E). lia.
  - apply Byte.of_N_None_iff in E. lia.
Qed.

Lemma byte_of_to_Z (b : byte) : byte_of_Z (byte_to_Z b) = Some b.
Proof.
  pose proof (byte_to_Z_range b) as H. unfold byte_of_Z.
  replace ((0 <=? byte_to_Z b) && (byte_to_Z b <? 256)) with true
    by (symmetry; apply andb_true_iff; split; [apply Z.leb_le | apply Z.ltb_lt]; lia).
  unfold byte_to_Z. rewrite N2Z.id. apply Byte.of_to_N.
Qed.

Lemma byte_field (v k : Z) :
  0 <= k -> Z.land (Z.shiftr v k) 0xFF = (v / 2 ^ k) mod 256.
Proof.
  intros Hk. change 0xFF with (Z.ones 8).
  rewrite Z.land_ones, Z.shiftr_div_pow2 by lia. reflexivity.
Qed.

Lemma byte_field_0 (v : Z) : Z.land v 0xFF = v mod 256.
Proof. change 0xFF with (Z.ones 8). rewrite Z.land_ones by lia. reflexivity. Qed.

Lemma le_u16 (a b : Z) :
  0 <= a < 256 -> Z.lor a (Z.shiftl b 8) = a + 256 * b.
Proof.
  intros Ha. rewrite Z.shiftl_mul_pow2 by lia.
  replace (b * 2 ^ 8) with (2 ^ 8 * b) by lia.
  rewrite (lor_low_high a b 8) by lia. lia.
Qed.

(** Packing succeeds exactly on arguments that fit, and what it yields
    unpacks to them. *)
Lemma pack_BBHI_le_ok (a b h i : Z) :
  0 <= a < 256 -> 0 <= b < 256 -> 0 <= h < 65536 -> 0 <= i < 4294967296 ->
  exists header,
    pack_BBHI_le a b h i = Some header /\
    length header = 8%nat /\
    unpack_BBHI_le header = Some (a, b, h, i).
Proof.
  intros Ha Hb Hh Hi. unfold pack_BBHI_le.
  replace ((0 <=? a) && (a <? 256) && (0 <=? b) && (b <? 256)
           && (0 <=? h) && (h <? 65536) && (0 <=? i) && (i <? 4294967296)) with true
    by (symmetry; repeat (apply andb_true_iff; split);
        first [apply Z.leb_le | apply Z.ltb_lt]; lia).
  destruct (byte_of_Z_ok a Ha) as (a0 & -> & Ea0).
  destruct (byte_of_Z_ok b Hb) as (b0 & -> & Eb0).
  destruct (byte_of_Z_ok _ (land_255_range h)) as (h0 & -> & Eh0).
  destruct (byte_of_Z_ok _ (land_255_range (Z.shiftr h 8))) as (h1 & -> & Eh1).
  destruct (byte_of_Z_ok _ (land_255_range i)) as (i0 & -> & Ei0).
  destruct (byte_of_Z_ok _ (land_255_range (Z.shiftr i 8))) as (i1 & -> & Ei1).
  destruct (byte_of_Z_ok _ (land_255_range (Z.shiftr i 16))) as (i2 & -> & Ei2).
  destruct (byte_of_Z_ok _ (land_255_range (Z.shiftr i 24))) as (i3 & -> & Ei3).
  cbn [mbind option_bind]. eexists. split; [reflexivity |]. split; [reflexivity |].
  cbn [unpack_BBHI_le].
  rewrite le_u16, le_u32 by apply byte_to_Z_range.
  rewrite Ea0, Eb0, Eh0, Eh1, Ei0, Ei1, Ei2, Ei3.
  rewrite !byte_field by lia. rewrite !byte_field_0.
  change (2 ^ 8) with 256. change (2 ^ 16) with 65536. change (2 ^ 24) with 16777216.
  do 2 f_equal; [f_equal |]; Z.div_mod_to_equations; lia.
Qed.

Lemma pack_BBHI_le_range (a b h i : Z) header :
  pack_BBHI_le a b h i = Some header ->
  0 <= a < 256 /\ 0 <= b < 256 /\ 0 <= h < 65536 /\ 0 <= i < 4294967296.
Proof.
  unfold pack_BBHI_le.
  destruct ((0 <=? a) && (a <? 256) && (0 <=? b) && (b <? 256)
            && (0 <=? h) && (h <? 65536) && (0 <=? i) && (i <? 4294967296)) eqn:E;
    [| discriminate].
  intros _. repeat (apply andb_true_iff in E as [E ?]). lia.
Qed.

(** Eight bytes always unpack, to fields that fit, and the fields pack
    back to the same eight bytes. *)
Lemma unpack_BBHI_le_ok (header : bytes) :
  length header = 8%nat ->
  exists a b h i,
    unpack_BBHI_le header = Some (a, b, h, i) /\
    0 <= a < 256 /\ 0 <= b < 256 /\ 0 <= h < 65536 /\ 0 <= i < 4294967296 /\
    pack_BBHI_le a b h i = Some header.
Proof.
  intros Hlen.
  destruct header as [| a0 [| b0 [| h0 [| h1 [| i0 [| i1 [| i2 [| i3 [| ? ?]]]]]]]]];
    try discriminate.
  cbn [unpack_BBHI_le]. eexists _, _, _, _. split; [reflexivity |].
  rewrite le_u16, le_u32 by apply byte_to_Z_range.
  pose proof (byte_to_Z_range a0). pose proof (byte_to_Z_range b0).
  pose proof (byte_to_Z_range h0). pose proof (byte_to_Z_range h1).
  pose proof (byte_to_Z_range i0). pose proof (byte_to_Z_range i1).
  pose proof (byte_to_Z_range i2). pose proof (byte_to_Z_range i3).
  repeat (split; [lia |]).
  unfold pack_BBHI_le.
  match goal with |- (if ?c then _ else _) = _ =>
    replace c with true
      by (symmetry; repeat (apply andb_true_iff; split);
          first [apply Z.leb_le | apply Z.ltb_lt]; lia) end.
  rewrite !byte_field by lia. rewrite !byte_field_0.
  change (2 ^ 8) with 256. change (2 ^ 16) with 65536. change (2 ^ 24) with 16777216.
  rewrite !byte_of_to_Z. cbn [mbind option_bind].
  set (h := byte_to_Z h0 + 256 * byte_to_Z h1).
  set (i := byte_to_Z i0 + 256 * byte_to_Z i1 + 65536 * byte_to_Z i2
            + 16777216 * byte_to_Z i3).
  replace (h mod 256) with (byte_to_Z h0) by (subst h; Z.div_mod_to_equations; lia).
  replace ((h / 256) mod 256) with (byte_to_Z h1) by (subst h; Z.div_mod_to_equations; lia).
  replace (i mod 256) with (byte_to_Z i0) by (subst i; Z.div_mod_to_equations; lia).
  replace ((i / 256) mod 256) with (byte_to_Z i1) by (subst i; Z.div_mod_to_equations; lia).
  replace ((i / 65536) mod 256) with (byte_to_Z i2)
    by (subst i; Z.div_mod_to_equations; lia).
  replace ((i / 16777216) mod 256) with (byte_to_Z i3)
    by (subst i; Z.div_mod_to_equations; lia).
  rewrite !byte_of_to_Z. reflexivity.
Qed.

(** X16. The header codec is a bijection between eight bytes and the
    four fields: arguments that fit their fields pack to eight bytes
    that unpack to the same arguments, and any eight bytes unpack to
    fields that fit and pack back to the same bytes. *)
Theorem header_round_trip :
  (forall a b h i,
     0 <= a < 256 -> 0 <= b < 256 -> 0 <= h < 65536 -> 0 <= i < 4294967296 ->
     exists header,
       pack_BBHI_le a b h i = Some header /\
       length header = 8%nat /\
       unpack_BBHI_le header = Some (a, b, h, i)) /\
  (forall header,
     length header = 8%nat ->
     exists a b h i,
       unpack_BBHI_le header = Some (a, b, h, i) /\
       0 <= a < 256 /\ 0 <= b < 256 /\ 0 <= h < 65536 /\ 0 <= i < 4294967296 /\
       pack_BBHI_le a b h i = Some header).
Proof. split; [apply pack_BBHI_le_ok | apply unpack_BBHI_le_ok]. Qed.

(** ** Reading from the socket *)

Lemma recv_spec (sock : Socket.t) (bufsize : nat) :
  (0 < bufsize)%nat ->
  exists k,
    (1 <= k <= bufsize)%nat /\
    fst (Socket.recv sock bufsize) = take k (Socket.inbox sock) /\
    Socket.inbox (snd (Socket.recv sock bufsize)) = drop k (Socket.inbox sock) /\
    Socket.outbox (snd (Socket.recv sock bufsize)) = Socket.outbox sock.
Proof.
  intros H. unfold Socket.recv. cbn [fst snd Socket.inbox Socket.outbox].
  destruct (Socket.chunks sock) as [| c cs].
  - exists bufsize. repeat split; lia.
  - exists (Nat.min bufsize (S c)). repeat split; lia.
Qed.

Lemma receive_all_loop_spec (fuel : nat) :
  forall (sock : Socket.t) (data : bytes) (n : nat),
    (length data <= n)%nat ->
    (n - length data < fuel)%nat ->
    exists sock',
      receive_all_loop fuel sock data n =
      Some (if (n - length data <=? length (Socket.inbox sock))%nat
            then Some (data ++ take (n - length data) (Socket.inbox sock))
            else None, sock') /\
      Socket.inbox sock' = drop (n - length data) (Socket.inbox sock) /\
      Socket.outbox sock' = Socket.outbox sock.
Proof.
  induction fuel as [| fuel IH]; intros sock data n Hle Hfuel; [lia |].
  cbn [receive_all_loop].
  destruct (Nat.ltb_spec (length data) n) as [Hlt | Hge].
  2: { replace (n - length data)%nat with 0%nat by lia.
       exists sock. cbn [Nat.leb take drop]. rewrite app_nil_r. repeat split. }
  destruct (recv_spec sock (n - length data) ltac:(lia)) as (k & Hk & Hchunk & Hin & Hout).
  destruct (Socket.recv sock (n - length data)) as [chunk sock1].
  cbn [fst snd] in Hchunk, Hin, Hout. subst chunk.
  destruct (Socket.inbox sock) as [| x l] eqn:Einbox.
  - rewrite take_nil. exists sock1.
    replace (n - length data <=? length (@nil byte))%nat with false
      by (symmetry; apply Nat.leb_gt; cbn; lia).
    rewrite Hin, !drop_nil. repeat split. exact Hout.
  - destruct k as [| k]; [lia |]. cbn [take]. rewrite <- Einbox in *.
    assert (Hchunk : x :: take k l = take (S k) (Socket.inbox sock))
      by (rewrite Einbox; reflexivity).
    rewrite Hchunk.
    pose proof (length_take (Socket.inbox sock) (S k)) as Hlen.
    assert (Hpos : (1 <= length (Socket.inbox sock))%nat) by (rewrite Einbox; cbn; lia).
    destruct (IH sock1 (data ++ take (S k) (Socket.inbox sock)) n) as (sock2 & Hrun & Hin2 & Hout2).
    { rewrite length_app, Hlen. lia. }
    { rewrite length_app, Hlen. lia. }
    exists sock2. rewrite Hrun, Hin2, Hout2, Hin, Hout.
    rewrite length_app, Hlen, length_drop, drop_drop.
    destruct (Nat.le_gt_cases (S k) (length (Socket.inbox sock))) as [Hk' | Hk'].
    + replace (S k `min` length (Socket.inbox sock))%nat with (S k) by lia.
      replace (n - (length data + S k) <=? length (Socket.inbox sock) - S k)%nat
        with (n - length data <=? length (Socket.inbox sock))%nat
        by (destruct (Nat.leb_spec (n - length data) (length (Socket.inbox sock)));
            symmetry; [apply Nat.leb_le | apply Nat.leb_gt]; lia).
      rewrite <- app_assoc, take_take_drop.
      replace (S k + (n - (length data + S k)))%nat with (n - length data)%nat by lia.
      repeat split.
    + replace (S k `min` length (Socket.inbox sock))%nat
        with (length (Socket.inbox sock)) by lia.
      replace (n - (length data + length (Socket.inbox sock))
               <=? length (Socket.inbox sock) - S k)%nat with false
        by (symmetry; apply Nat.leb_gt; lia).
      replace (n - length data <=? length (Socket.inbox sock))%nat with false
        by (symmetry; apply Nat.leb_gt; lia).
      rewrite !drop_ge by lia. repeat split.
Qed.

Lemma receive_all_spec (sock : Socket.t) (n : nat) :
  exists sock',
    receive_all sock n =
    Some (if (n <=? length (Socket.inbox sock))%nat
          then Some (take n (Socket.inbox sock)) else None, sock') /\
    Socket.inbox sock' = drop n (Socket.inbox sock) /\
    Socket.outbox sock' = Socket.outbox sock.
Proof.
  destruct (receive_all_loop_spec (S n) sock [] n) as (sock' & H & Hin & Hout);
    [cbn; lia | cbn; lia |].
  cbn [length] in *. rewrite Nat.sub_0_r in *. exists sock'. auto.
Qed.

(** X17. [receive_all] returns exactly the requested number of bytes or
    nothing, however the transport fragments the stream: if the peer
    sends at least [length] bytes before closing, the result is the first
    [length] bytes and the rest stays unread; otherwise the result is
    [None] and the stream is used up. Nothing is sent, and the loop
    always ends. *)
Theorem receive_all_exact (sock : Socket.t) (length : nat) :
  exists sock',
    receive_all sock length =
    Some (if (length <=? List.length (Socket.inbox sock))%nat
          then Some (take length (Socket.inbox sock)) else None, sock') /\
    Socket.inbox sock' = drop length (Socket.inbox sock) /\
    Socket.outbox sock' = Socket.outbox sock.
Proof. apply receive_all_spec. Qed.

(** ** The connection loop *)

Lemma unpack_BBHI_le_length (header : bytes) r :
  unpack_BBHI_le header = Some r -> length header = 8%nat.
Proof.
  destruct header as [| a0 [| b0 [| h0 [| h1 [| i0 [| i1 [| i2 [| i3 [| ? ?]]]]]]]]];
    try discriminate.
  reflexivity.
Qed.

Lemma send_response_ok (sock : Socket.t) (msg_type device_id sequence : Z) (data : bytes) :
  0 <= device_id < 256 -> 0 <= sequence < 4294967296 ->
  Z.of_nat (length data) <= 65535 ->
  exists header,
    pack_BBHI_le SpiMessageType.RESPONSE device_id (Z.of_nat (length data)) sequence
      = Some header /\
    send_response sock msg_type device_id sequence data =
    Some {| Socket.inbox := Socket.inbox sock;
            Socket.chunks := Socket.chunks sock;
            Socket.outbox := Socket.outbox sock ++ header ++ data |}.
Proof.
  intros Hd Hs Hlen.
  destruct (pack_BBHI_le_ok SpiMessageType.RESPONSE device_id (Z.of_nat (length data)) sequence)
    as (header & Hpack & _ & _); [unfold SpiMessageType.RESPONSE; lia | lia | lia | lia |].
  exists header. split; [exact Hpack |]. unfold send_response.
  destruct data as [| x data].
  - cbn [truthy length] in *. change (Z.of_nat 0) with 0 in Hpack. rewrite Hpack.
    cbn [mbind option_bind]. unfold Socket.sendall.
    cbn [Socket.outbox Socket.inbox Socket.chunks].
    rewrite app_nil_r. reflexivity.
  - cbn [truthy]. rewrite Hpack.
    cbn [mbind option_bind]. unfold Socket.sendall.
    cbn [Socket.outbox Socket.inbox Socket.chunks].
    rewrite <- app_assoc. reflexivity.
Qed.

Lemma incomplete_cases (tail : bytes) :
  incomplete tail = true ->
  (length tail < 8)%nat \/
  exists t d l s,
    unpack_BBHI_le (take 8 tail) = Some (t, d, l, s) /\
    Z.of_nat (length (drop 8 tail)) < l.
Proof.
  unfold incomplete. intros H.
  destruct (Nat.lt_ge_cases (length tail) 8) as [Hlt | Hge]; [left; exact Hlt | right].
  destruct (unpack_BBHI_le_ok (take 8 tail)) as (t & d & l & s & Hun & _).
  { rewrite length_take. lia. }
  rewrite Hun in H. exists t, d, l, s. split; [exact Hun |].
  apply Z.ltb_lt in H. rewrite length_drop. lia.
Qed.

(** *** Calls on a connection that can break *)

Lemma link_recv_cases (link : Link.t) (bufsize : nat) :
  match Link.recv link bufsize with
  | Link.Returned chunk link' =>
      chunk = fst (Socket.recv (Link.sock link) bufsize) /\
      Link.sock link' = snd (Socket.recv (Link.sock link) bufsize) /\
      (no_faults link -> no_faults link')
  | Link.Raised link' =>
      ~ no_faults link /\ Link.sock link' = Link.sock link
  end.
Proof.
  unfold Link.recv, no_faults.
  destruct (Link.faults link) as [| [k |] rest] eqn:E.
  - destruct (Socket.recv (Link.sock link) bufsize) as [chunk s]. cbn. auto.
  - cbn. split; [| reflexivity]. intros H. inversion H; discriminate.
  - destruct (Socket.recv (Link.sock link) bufsize) as [chunk s]. cbn.
    repeat split. intros H. inversion H; assumption.
Qed.

Lemma link_sendall_cases (link : Link.t) (data : bytes) :
  match Link.sendall link data with
  | Link.Returned _ link' =>
      Link.sock link' = Socket.sendall (Link.sock link) data /\
      (no_faults link -> no_faults link')
  | Link.Raised link' =>
      ~ no_faults link /\
      exists k, Link.sock link' = Socket.sendall (Link.sock link) (take k data)
  end.
Proof.
  unfold Link.sendall, no_faults.
  destruct (Link.faults link) as [| [k |] rest] eqn:E; cbn.
  - auto.
  - split; [intros H; inversion H; discriminate | exists k; reflexivity].
  - split; [reflexivity |]. intros H. inversion H; assumption.
Qed.

(** [receive_all] on a connection that can break always ends: with the
    bytes asked for, with [None] at the end of the stream, or with the
    exception of a call that was due to raise. *)
Lemma link_receive_all_loop_spec (fuel : nat) :
  forall (link : Link.t) (data : bytes) (n : nat),
    (length data <= n)%nat ->
    (n - length data < fuel)%nat ->
    exists r,
      Link.receive_all_loop fuel link data n = Some r /\
      match r with
      | Link.Returned got link' =>
          got = (if (n - length data <=? length (Socket.inbox (Link.sock link)))%nat
                 then Some (data ++ take (n - length data) (Socket.inbox (Link.sock link)))
                 else None) /\
          Socket.inbox (Link.sock link') = drop (n - length data) (Socket.inbox (Link.sock link)) /\
          Socket.outbox (Link.sock link') = Socket.outbox (Link.sock link) /\
          (no_faults link -> no_faults link')
      | Link.Raised link' =>
          ~ no_faults link /\
          Socket.outbox (Link.sock link') = Socket.outbox (Link.sock link)
      end.
Proof.
  induction fuel as [| fuel IH]; intros link data n Hle Hfuel; [lia |].
  cbn [Link.receive_all_loop].
  destruct (Nat.ltb_spec (length data) n) as [Hlt | Hge].
  2: { replace (n - length data)%nat with 0%nat by lia.
       eexists. split; [reflexivity |]. cbn [Nat.leb take drop].
       rewrite app_nil_r. auto. }
  pose proof (link_recv_cases link (n - length data)) as Hrecv.
  destruct (Link.recv link (n - length data)) as [chunk link1 | link1].
  2: { destruct Hrecv as [Hfault Hsock]. eexists. split; [reflexivity |].
       split; [exact Hfault | rewrite Hsock; reflexivity]. }
  destruct Hrecv as (Hchunk & Hsock & Hkeep).
  destruct (recv_spec (Link.sock link) (n - length data) ltac:(lia))
    as (k & Hk & Htake & Hin & Hout).
  rewrite <- Hchunk in Htake. rewrite <- Hsock in Hin, Hout.
  clear Hchunk Hsock. subst chunk.
  destruct (Socket.inbox (Link.sock link)) as [| x l] eqn:Einbox.
  - rewrite take_nil. eexists. split; [reflexivity |].
    replace (n - length data <=? length (@nil byte))%nat with false
      by (symmetry; apply Nat.leb_gt; cbn; lia).
    rewrite Hin, !drop_nil. auto.
  - destruct k as [| k]; [lia |]. cbn [take]. rewrite <- Einbox in *.
    assert (Hchunk : x :: take k l = take (S k) (Socket.inbox (Link.sock link)))
      by (rewrite Einbox; reflexivity).
    rewrite Hchunk.
    pose proof (length_take (Socket.inbox (Link.sock link)) (S k)) as Hlen.
    assert (Hpos : (1 <= length (Socket.inbox (Link.sock link)))%nat)
      by (rewrite Einbox; cbn; lia).
    destruct (IH link1 (data ++ take (S k) (Socket.inbox (Link.sock link))) n)
      as (r & Hrun & Hr).
    { rewrite length_app, Hlen. lia. }
    { rewrite length_app, Hlen. lia. }
    exists r. split; [exact Hrun |].
    destruct r as [got link2 | link2].
    2: { destruct Hr as [Hfault Hout2]. split; [tauto | congruence]. }
    destruct Hr as (Hgot & Hin2 & Hout2 & Hkeep2).
    rewrite Hgot, Hin2, Hout2, Hin, Hout.
    rewrite length_app, Hlen, length_drop, drop_drop.
    destruct (Nat.le_gt_cases (S k) (length (Socket.inbox (Link.sock link)))) as [Hk' | Hk'].
    + replace (S k `min` length (Socket.inbox (Link.sock link)))%nat with (S k) by lia.
      replace (n - (length data + S k) <=? length (Socket.inbox (Link.sock link)) - S k)%nat
        with (n - length data <=? length (Socket.inbox (Link.sock link)))%nat
        by (destruct (Nat.leb_spec (n - length data) (length (Socket.inbox (Link.sock link))));
            symmetry; [apply Nat.leb_le | apply Nat.leb_gt]; lia).
      rewrite <- app_assoc, take_take_drop.
      replace (S k + (n - (length data + S k)))%nat with (n - length data)%nat by lia.
      repeat split; auto.
    + replace (S k `min` length (Socket.inbox (Link.sock link)))%nat
        with (length (Socket.inbox (Link.sock link))) by lia.
      replace (n - (length data + length (Socket.inbox (Link.sock link)))
               <=? length (Socket.inbox (Link.sock link)) - S k)%nat with false
        by (symmetry; apply Nat.leb_gt; lia).
      replace (n - length data <=? length (Socket.inbox (Link.sock link)))%nat with false
        by (symmetry; apply Nat.leb_gt; lia).
      rewrite !drop_ge by lia. repeat split; auto.
Qed.

Lemma link_receive_all_spec (link : Link.t) (n : nat) :
  exists r,
    Link.receive_all link n = Some r /\
    match r with
    | Link.Returned got link' =>
        got = (if (n <=? length (Socket.inbox (Link.sock link)))%nat
               then Some (take n (Socket.inbox (Link.sock link))) else None) /\
        Socket.inbox (Link.sock link') = drop n (Socket.inbox (Link.sock link)) /\
        Socket.outbox (Link.sock link') = Socket.outbox (Link.sock link) /\
        (no_faults link -> no_faults link')
    | Link.Raised link' =>
        ~ no_faults link /\
        Socket.outbox (Link.sock link') = Socket.outbox (Link.sock link)
    end.
Proof.
  destruct (link_receive_all_loop_spec (S n) link [] n) as (r & H & Hr);
    [cbn; lia | cbn; lia |].
  cbn [length] in *. rewrite Nat.sub_0_r in *. exists r. auto.
Qed.

(** On a connection where no call is due to raise, [Link.receive_all] is
    [receive_all] on the socket. *)
Lemma link_receive_all_loop_healthy (fuel : nat) :
  forall (link : Link.t) (data : bytes) (n : nat),
    no_faults link ->
    match receive_all_loop fuel (Link.sock link) data n with
    | Some (got, s) =>
        exists link',
          Link.receive_all_loop fuel link data n = Some (Link.Returned got link') /\
          Link.sock link' = s /\ no_faults link'
    | None => Link.receive_all_loop fuel link data n = None
    end.
Proof.
  induction fuel as [| fuel IH]; intros link data n Hok; [reflexivity |].
  cbn [receive_all_loop Link.receive_all_loop].
  destruct (length data <? n)%nat; [| exists link; auto].
  pose proof (link_recv_cases link (n - length data)) as Hrecv.
  destruct (Link.recv link (n - length data)) as [chunk link1 | link1];
    [| destruct Hrecv as [Hfault _]; contradiction].
  destruct Hrecv as (Hchunk & Hsock & Hkeep).
  destruct (Socket.recv (Link.sock link) (n - length data)) as [chunk' s1].
  cbn [fst snd] in *. subst chunk' s1.
  destruct chunk as [| x chunk]; [exists link1; auto |].
  apply IH. auto.
Qed.

Lemma link_send_response_cases (link : Link.t) (msg_type device_id sequence : Z) (data : bytes) :
  0 <= device_id < 256 -> 0 <= sequence < 4294967296 ->
  Z.of_nat (length data) <= 65535 ->
  exists header,
    pack_BBHI_le SpiMessageType.RESPONSE device_id (Z.of_nat (length data)) sequence
      = Some header /\
    match Link.send_response link msg_type device_id sequence data with
    | Link.Returned _ link' =>
        send_response (Link.sock link) msg_type device_id sequence data
          = Some (Link.sock link') /\
        Socket.inbox (Link.sock link') = Socket.inbox (Link.sock link) /\
        Socket.outbox (Link.sock link') = Socket.outbox (Link.sock link) ++ header ++ data /\
        (no_faults link -> no_faults link')
    | Link.Raised link' =>
        ~ no_faults link /\
        Socket.inbox (Link.sock link') = Socket.inbox (Link.sock link) /\
        exists sent, Socket.outbox (Link.sock link') = Socket.outbox (Link.sock link) ++ sent
    end.
Proof.
  intros Hd Hs Hlen.
  destruct (send_response_ok (Link.sock link) msg_type device_id sequence data Hd Hs Hlen)
    as (header & Hpack & Hsend).
  exists header. split; [exact Hpack |].
  unfold Link.send_response.
  assert (Hdl : (if truthy (Some data) then Z.of_nat (length data) else 0)
                = Z.of_nat (length data)) by (destruct data; reflexivity).
  rewrite Hdl, Hpack.
  pose proof (link_sendall_cases link header) as H1.
  destruct (Link.sendall link header) as [[] link1 | link1].
  2: { destruct H1 as (Hfault & k & Hsock). split; [exact Hfault |].
       rewrite Hsock. split; [reflexivity |]. exists (take k header). reflexivity. }
  destruct H1 as (Hsock1 & Hkeep1).
  destruct data as [| x data].
  - cbn [truthy]. rewrite Hsend, Hsock1. unfold Socket.sendall.
    cbn [Socket.inbox Socket.outbox Socket.chunks].
    rewrite !app_nil_r. repeat split; auto.
  - cbn [truthy].
    pose proof (link_sendall_cases link1 (x :: data)) as H2.
    destruct (Link.sendall link1 (x :: data)) as [[] link2 | link2].
    + destruct H2 as (Hsock2 & Hkeep2).
      rewrite Hsend, Hsock2, Hsock1. unfold Socket.sendall.
      cbn [Socket.inbox Socket.outbox Socket.chunks].
      rewrite <- !app_assoc. repeat split; auto.
    + destruct H2 as (Hfault & k & Hsock2).
      split; [tauto |]. rewrite Hsock2, Hsock1. unfold Socket.sendall.
      cbn [Socket.inbox Socket.outbox Socket.chunks].
      split; [reflexivity |]. exists (header ++ take k (x :: data)).
      rewrite <- app_assoc. reflexivity.
Qed.

(** *** One pass of the connection loop *)

(** The stream ends before a whole request: the pass leaves the loop,
    by its [break] unless a call raised. *)
Lemma handle_client_loop_incomplete fuel self (link : Link.t) :
  incomplete (Socket.inbox (Link.sock link)) = true ->
  exists exit link',
    handle_client_loop (S fuel) true self link = Some (exit, self, link') /\
    Socket.outbox (Link.sock link') = Socket.outbox (Link.sock link) /\
    match exit with
    | LoopEnded =>
        Socket.inbox (Link.sock link') = [] /\ (no_faults link -> no_faults link')
    | ClientError => ~ no_faults link
    end.
Proof.
  intros Hinc. cbn [handle_client_loop negb].
  destruct (link_receive_all_spec link 8) as (r & -> & Hr).
  destruct r as [got link1 | link1];
    [| destruct Hr as [Hfault Hout]; exists ClientError, link1; auto].
  destruct Hr as (Hgot & Hin1 & Hout1 & Hkeep1).
  destruct (incomplete_cases _ Hinc) as [Hshort | (t & d & l & s & Hun & Hl)].
  - replace (8 <=? length (Socket.inbox (Link.sock link)))%nat with false in Hgot
      by (symmetry; apply Nat.leb_gt; exact Hshort).
    subst got. cbn [truthy negb]. exists LoopEnded, link1.
    rewrite Hin1, drop_ge by lia. auto.
  - pose proof (unpack_BBHI_le_length _ _ Hun) as Hlen. rewrite length_take in Hlen.
    replace (8 <=? length (Socket.inbox (Link.sock link)))%nat with true in Hgot
      by (symmetry; apply Nat.leb_le; lia).
    subst got.
    assert (Htruthy : truthy (Some (take 8 (Socket.inbox (Link.sock link)))) = true).
    { destruct (take 8 (Socket.inbox (Link.sock link))); [discriminate | reflexivity]. }
    rewrite Htruthy. cbn [negb default from_option id]. rewrite Hun.
    rewrite length_drop in Hl.
    replace (0 <? l) with true by (symmetry; apply Z.ltb_lt; lia).
    destruct (link_receive_all_spec link1 (Z.to_nat l)) as (r & -> & Hr).
    destruct r as [got link2 | link2].
    + destruct Hr as (Hgot & Hin2 & Hout2 & Hkeep2).
      rewrite Hin1, length_drop in Hgot.
      replace (Z.to_nat l <=? length (Socket.inbox (Link.sock link)) - 8)%nat with false in Hgot
        by (symmetry; apply Nat.leb_gt; lia).
      subst got. cbn [truthy negb andb]. exists LoopEnded, link2.
      split; [reflexivity |]. split; [congruence |].
      split; [| auto]. rewrite Hin2, Hin1, drop_drop, drop_ge by lia. reflexivity.
    + destruct Hr as [Hfault Hout2]. exists ClientError, link2.
      split; [reflexivity |]. split; [congruence | tauto].
Qed.

(** A whole request is in the stream: it is dispatched; then either its
    reply is sent and the loop goes on behind it, or a call raised. *)
Lemma handle_client_loop_message fuel self (link : Link.t) header p rest t d l s :
  Socket.inbox (Link.sock link) = header ++ p ++ rest ->
  unpack_BBHI_le header = Some (t, d, l, s) ->
  Z.of_nat (length p) = l ->
  exists self' response reply_header,
    SpiSocketServer.process_message self t d (payload_object p) = Some (self', response) /\
    pack_BBHI_le SpiMessageType.RESPONSE d (Z.of_nat (length response)) s
      = Some reply_header /\
    ((exists link',
        handle_client_loop (S fuel) true self link = handle_client_loop fuel true self' link' /\
        Socket.inbox (Link.sock link') = rest /\
        Socket.outbox (Link.sock link')
          = Socket.outbox (Link.sock link) ++ reply_header ++ response /\
        (no_faults link -> no_faults link'))
     \/
     (exists self'' link' sent,
        handle_client_loop (S fuel) true self link = Some (ClientError, self'', link') /\
        ~ no_faults link /\
        Socket.outbox (Link.sock link') = Socket.outbox (Link.sock link) ++ sent)).
Proof.
  intros Hin Hun Hp. pose proof (unpack_BBHI_le_length _ _ Hun) as Hlen.
  destruct (unpack_BBHI_le_ok header Hlen) as (t' & d' & l' & s' & Hun' & _ & Hd & Hl & Hs & _).
  rewrite Hun in Hun'. injection Hun' as <- <- <- <-.
  destruct (process_message_reply self t d (payload_object p))
    as (self' & response & Hproc & Hrlen).
  assert (Hbound : Z.of_nat (length response) <= 65535).
  { rewrite Hrlen. apply reply_length_bound.
    replace (default [] (payload_object p)) with p by (destruct p; reflexivity). lia. }
  destruct (pack_BBHI_le_ok SpiMessageType.RESPONSE d (Z.of_nat (length response)) s)
    as (reply_header & Hpack & _ & _); [unfold SpiMessageType.RESPONSE; lia | lia | lia | lia |].
  exists self', response, reply_header. split; [exact Hproc |]. split; [exact Hpack |].
  cbn [handle_client_loop negb].
  destruct (link_receive_all_spec link 8) as (r & -> & Hr).
  destruct r as [got link1 | link1].
  2: { destruct Hr as [Hfault Hout]. right. exists self, link1, [].
       rewrite app_nil_r. auto. }
  destruct Hr as (Hgot & Hin1 & Hout1 & Hkeep1).
  rewrite Hin in Hgot, Hin1. rewrite drop_app_length' in Hin1 by (symmetry; exact Hlen).
  replace (8 <=? length (header ++ p ++ rest))%nat with true in Hgot
    by (symmetry; apply Nat.leb_le; rewrite length_app; lia).
  rewrite take_app_length' in Hgot by (symmetry; exact Hlen). subst got.
  assert (Htruthy : truthy (Some header) = true) by (destruct header; [discriminate | reflexivity]).
  rewrite Htruthy. cbn [negb default from_option id]. rewrite Hun.
  assert (Hstep :
    (exists link2,
       (if 0 <? l then Link.receive_all link1 (Z.to_nat l) else Some (Link.Returned None link1))
         = Some (Link.Returned (payload_object p) link2) /\
       ((0 <? l) && negb (truthy (payload_object p)) = false) /\
       Socket.inbox (Link.sock link2) = rest /\
       Socket.outbox (Link.sock link2) = Socket.outbox (Link.sock link) /\
       (no_faults link -> no_faults link2))
    \/
    (exists link2,
       (if 0 <? l then Link.receive_all link1 (Z.to_nat l) else Some (Link.Returned None link1))
         = Some (Link.Raised link2) /\
       ~ no_faults link /\
       Socket.outbox (Link.sock link2) = Socket.outbox (Link.sock link))).
  { destruct (Z.ltb_spec 0 l) as [Hpos | Hzero].
    - destruct (link_receive_all_spec link1 (Z.to_nat l)) as (r & -> & Hr).
      destruct r as [got link2 | link2].
      + left. destruct Hr as (Hgot & Hin2 & Hout2 & Hkeep2).
        rewrite Hin1 in Hgot, Hin2. replace (Z.to_nat l) with (length p) in * by lia.
        replace (length p <=? length (p ++ rest))%nat with true in Hgot
          by (symmetry; apply Nat.leb_le; rewrite length_app; lia).
        rewrite take_app_length in Hgot. rewrite drop_app_length in Hin2. subst got.
        exists link2. destruct p as [| x p]; [cbn in Hp; lia |].
        split; [reflexivity |]. split; [reflexivity |]. split; [exact Hin2 |].
        split; [congruence | auto].
      + right. destruct Hr as [Hfault Hout2]. exists link2.
        split; [reflexivity |]. split; [tauto | congruence].
    - left. exists link1. assert (p = []) by (destruct p; [reflexivity | cbn in Hp; lia]).
      subst p. cbn [app] in Hin1.
      split; [reflexivity |]. split; [reflexivity |]. auto. }
  destruct Hstep as [(link2 & -> & Htest & Hin2 & Hout2 & Hkeep2) | (link2 & -> & Hfault & Hout2)].
  2: { right. exists self, link2, []. rewrite app_nil_r. auto. }
  rewrite Htest, Hproc.
  destruct (link_send_response_cases link2 t d s response Hd Hs Hbound) as (header' & Hpack' & Hsend).
  rewrite Hpack in Hpack'. injection Hpack' as <-.
  destruct (Link.send_response link2 t d s response) as [[] link3 | link3].
  - left. destruct Hsend as (_ & Hin3 & Hout3 & Hkeep3). exists link3.
    split; [reflexivity |]. split; [congruence |]. split; [congruence | auto].
  - right. destruct Hsend as (Hfault & _ & sent & Hout3). exists self', link3, sent.
    split; [reflexivity |]. split; [tauto | congruence].
Qed.

(** *** The whole loop *)

Lemma handle_client_loop_serves (requests : list Request) :
  forall fuel self (link : Link.t) stream tail,
    wire requests = Some stream ->
    incomplete tail = true ->
    Socket.inbox (Link.sock link) = stream ++ tail ->
    no_faults link ->
    (length (Socket.inbox (Link.sock link)) < fuel)%nat ->
    exists self' replies out link',
      serve self (dispatched <$> requests) = Some (self', replies) /\
      length replies = length requests /\
      reply_wire requests replies = Some out /\
      handle_client_loop fuel true self link = Some (LoopEnded, self', link') /\
      Socket.outbox (Link.sock link') = Socket.outbox (Link.sock link) ++ out /\
      Socket.inbox (Link.sock link') = [].
Proof.
  induction requests as [| r rs IH];
    intros fuel self link stream tail Hwire Htail Hin Hok Hfuel;
    (destruct fuel as [| fuel]; [lia |]).
  - injection Hwire as <-. cbn [app] in Hin.
    destruct (handle_client_loop_incomplete fuel self link)
      as (exit & link' & Hrun & Hout' & Hexit); [rewrite Hin; exact Htail |].
    destruct exit; [| contradiction].
    exists self, [], [], link'. rewrite app_nil_r. destruct Hexit as [Hin' _].
    repeat split; assumption.
  - cbn [wire] in Hwire.
    destruct (pack_BBHI_le _ _ _ _) as [header |] eqn:Hpack; [| discriminate].
    destruct (wire rs) as [tl |] eqn:Hrs; [| discriminate].
    cbn [mbind option_bind] in Hwire. injection Hwire as <-.
    destruct (pack_BBHI_le_range _ _ _ _ _ Hpack) as (Ht & Hd & Hl & Hs).
    destruct (pack_BBHI_le_ok _ _ _ _ Ht Hd Hl Hs) as (header' & Hpack' & Hlen & Hun).
    rewrite Hpack in Hpack'. injection Hpack' as <-.
    rewrite <- !app_assoc in Hin.
    destruct (handle_client_loop_message fuel self link header (req_payload r) (tl ++ tail)
                _ _ _ _ Hin Hun eq_refl)
      as (self1 & response & reply_header & Hproc & Hreply & Hnext).
    destruct Hnext as [(link1 & Hrun & Hin1 & Hout1 & Hkeep) | (? & ? & ? & _ & Hfault & _)];
      [| contradiction].
    destruct (IH fuel self1 link1 tl tail eq_refl Htail Hin1 (Hkeep Hok))
      as (self' & replies & out & link' & Hserve & Hcount & Hout & Hrun' & Hout' & Hin').
    { rewrite Hin1. rewrite Hin, length_app, Hlen in Hfuel. rewrite length_app in Hfuel. lia. }
    exists self', (response :: replies), (reply_header ++ response ++ out), link'.
    split.
    { change (dispatched <$> r :: rs) with (dispatched r :: (dispatched <$> rs)).
      cbn [serve]. unfold dispatched at 1.
      rewrite Hproc. cbn [mbind option_bind]. rewrite Hserve. reflexivity. }
    split; [cbn [length]; congruence |].
    split.
    { cbn [reply_wire]. rewrite Hreply. cbn [mbind option_bind]. rewrite Hout. reflexivity. }
    split; [rewrite Hrun; exact Hrun' |].
    split; [| exact Hin'].
    rewrite Hout', Hout1, <- !app_assoc. reflexivity.
Qed.

(** Any stream is either incomplete or begins with a whole request. *)
Lemma stream_cases (inbox : bytes) :
  incomplete inbox = true \/
  exists header p rest t d l s,
    inbox = header ++ p ++ rest /\
    unpack_BBHI_le header = Some (t, d, l, s) /\
    Z.of_nat (length p) = l /\
    (length rest + 8 <= length inbox)%nat.
Proof.
  destruct (incomplete inbox) eqn:Hinc; [left; reflexivity | right].
  unfold incomplete in Hinc.
  destruct (unpack_BBHI_le (take 8 inbox)) as [[[[t d] l] s] |] eqn:Hun; [| discriminate].
  apply Z.ltb_ge in Hinc.
  pose proof (unpack_BBHI_le_length _ _ Hun) as Hlen.
  destruct (unpack_BBHI_le_ok _ Hlen) as (t' & d' & l' & s' & Hun' & _ & _ & Hl & _).
  rewrite Hun in Hun'. injection Hun' as <- <- <- <-.
  rewrite length_take in Hlen.
  exists (take 8 inbox), (take (Z.to_nat l) (drop 8 inbox)), (drop (Z.to_nat l) (drop 8 inbox)),
    t, d, l, s.
  split; [rewrite !take_drop; reflexivity |]. split; [exact Hun |].
  split; [rewrite length_take, length_drop; lia | rewrite !length_drop; lia].
Qed.


Lemma handle_client_loop_chunks (fuel1 : nat) :
  forall fuel2 self (link1 link2 : Link.t),
    Socket.inbox (Link.sock link1) = Socket.inbox (Link.sock link2) ->
    Socket.outbox (Link.sock link1) = Socket.outbox (Link.sock link2) ->
    no_faults link1 -> no_faults link2 ->
    (length (Socket.inbox (Link.sock link1)) < fuel1)%nat ->
    (length (Socket.inbox (Link.sock link1)) < fuel2)%nat ->
    exists self' link1' link2',
      handle_client_loop fuel1 true self link1 = Some (LoopEnded, self', link1') /\
      handle_client_loop fuel2 true self link2 = Some (LoopEnded, self', link2') /\
      Socket.outbox (Link.sock link1') = Socket.outbox (Link.sock link2').
Proof.
  induction fuel1 as [| fuel1 IH];
    intros fuel2 self link1 link2 Hin Hout Hok1 Hok2 H1 H2; [lia |].
  destruct fuel2 as [| fuel2]; [lia |].
  destruct (stream_cases (Socket.inbox (Link.sock link1)))
    as [Hinc | (header & p & rest & t & d & l & s & Hsplit & Hun & Hp & Hrest)].
  - destruct (handle_client_loop_incomplete fuel1 self link1 Hinc)
      as (e1 & l1 & -> & Ho1 & He1).
    rewrite Hin in Hinc.
    destruct (handle_client_loop_incomplete fuel2 self link2 Hinc)
      as (e2 & l2 & -> & Ho2 & He2).
    destruct e1; [| contradiction]. destruct e2; [| contradiction].
    exists self, l1, l2. split; [reflexivity |]. split; [reflexivity | congruence].
  - destruct (handle_client_loop_message fuel1 self link1 header p rest t d l s Hsplit Hun Hp)
      as (self1 & r1 & h1 & Hproc1 & Hpack1 & Hnext1).
    rewrite Hin in Hsplit.
    destruct (handle_client_loop_message fuel2 self link2 header p rest t d l s Hsplit Hun Hp)
      as (self2 & r2 & h2 & Hproc2 & Hpack2 & Hnext2).
    rewrite Hproc1 in Hproc2. injection Hproc2 as <- <-.
    rewrite Hpack1 in Hpack2. injection Hpack2 as <-.
    destruct Hnext1 as [(l1 & -> & Hin1 & Hout1 & Hkeep1) | (? & ? & ? & _ & Hfault & _)];
      [| contradiction].
    destruct Hnext2 as [(l2 & -> & Hin2 & Hout2 & Hkeep2) | (? & ? & ? & _ & Hfault & _)];
      [| contradiction].
    apply IH; auto; try congruence; rewrite Hin1; lia.
Qed.

(** X18. Serving a connection. Let [self.running] be true, let no
    socket call raise, and let the peer send any list of well-formed
    requests (header, then as many payload bytes as the header
    announces), possibly followed by the beginning of a further request
    that it never completes, and then close. Whatever the transport's
    fragmentation, [handle_client] leaves its loop by a [break]; the
    server it leaves is the one [process_message] produces from the
    requests in order (with no payload object for a zero-length payload);
    what it has sent is, for each request in order, a header with type
    0x80, the request's device id, the reply's length and the request's
    sequence number, followed by the reply; the incomplete request is
    dropped without a reply. *)
Theorem handle_client_serves
    (self : SpiSocketServer.t) (link : Link.t) (requests : list Request)
    (stream tail : bytes) :
  wire requests = Some stream ->
  incomplete tail = true ->
  Socket.inbox (Link.sock link) = stream ++ tail ->
  no_faults link ->
  exists self' replies out link',
    serve self (dispatched <$> requests) = Some (self', replies) /\
    length replies = length requests /\
    reply_wire requests replies = Some out /\
    handle_client true self link = Some (LoopEnded, self', link') /\
    Socket.outbox (Link.sock link') = Socket.outbox (Link.sock link) ++ out /\
    Socket.inbox (Link.sock link') = [].
Proof.
  intros Hwire Htail Hin Hok. unfold handle_client.
  apply (handle_client_loop_serves requests _ self link stream tail Hwire Htail Hin Hok). lia.
Qed.

Lemma handle_client_serves_witness :
  let requests := [mkRequest SpiMessageType.TRANSFER 1 7 [x20; x00];
                   mkRequest SpiMessageType.GET_STATUS 2 8 [];
                   mkRequest SpiMessageType.TRANSFER 1 9 [x00; x00; xaa]] in
  let stream := [x03; x01; x02; x00; x07; x00; x00; x00; x20; x00;
                 x07; x02; x00; x00; x08; x00; x00; x00;
                 x03; x01; x03; x00; x09; x00; x00; x00; x00; x00; xaa] in
  let tail := [x03; x01; x05] in
  let link := {| Link.sock := {| Socket.inbox := stream ++ tail;
                                 Socket.chunks := [0; 2; 0; 10; 1]%nat;
                                 Socket.outbox := [] |};
                 Link.faults := [None; None] |} in
  exists self' replies out link',
    serve SpiSocketServer.init (dispatched <$> requests) = Some (self', replies) /\
    length replies = length requests /\
    reply_wire requests replies = Some out /\
    handle_client true SpiSocketServer.init link = Some (LoopEnded, self', link') /\
    Socket.outbox (Link.sock link') = Socket.outbox (Link.sock link) ++ out /\
    Socket.inbox (Link.sock link') = [].
Proof.
  apply (handle_client_serves SpiSocketServer.init
           {| Link.sock :=
                {| Socket.inbox :=
                     [x03; x01; x02; x00; x07; x00; x00; x00; x20; x00;
                      x07; x02; x00; x00; x08; x00; x00; x00;
                      x03; x01; x03; x00; x09; x00; x00; x00; x00; x00; xaa]
                     ++ [x03; x01; x05];
                   Socket.chunks := [0; 2; 0; 10; 1]%nat;
                   Socket.outbox := [] |};
              Link.faults := [None; None] |}
           [mkRequest SpiMessageType.TRANSFER 1 7 [x20; x00];
            mkRequest SpiMessageType.GET_STATUS 2 8 [];
            mkRequest SpiMessageType.TRANSFER 1 9 [x00; x00; xaa]]
           [x03; x01; x02; x00; x07; x00; x00; x00; x20; x00;
            x07; x02; x00; x00; x08; x00; x00; x00;
            x03; x01; x03; x00; x09; x00; x00; x00; x00; x00; xaa]
           [x03; x01; x05]).
  - vm_compute. reflexivity.
  - vm_compute. reflexivity.
  - reflexivity.
  - repeat constructor.
Defined.


(** X20. When no socket call raises, the fragmentation of the stream is
    invisible: two connections that deliver the same bytes in different
    chunks leave the loop by a [break] with the same server and the same
    bytes sent. *)
Theorem handle_client_fragmentation
    (self : SpiSocketServer.t) (link : Link.t) (chunks' : list nat) :
  no_faults link ->
  exists self' link1 link2,
    handle_client true self link = Some (LoopEnded, self', link1) /\
    handle_client true self
      {| Link.sock := {| Socket.inbox := Socket.inbox (Link.sock link);
                         Socket.chunks := chunks';
                         Socket.outbox := Socket.outbox (Link.sock link) |};
         Link.faults := [] |}
      = Some (LoopEnded, self', link2) /\
    Socket.outbox (Link.sock link1) = Socket.outbox (Link.sock link2).
Proof.
  intros Hok. unfold handle_client. cbn [Link.sock Socket.inbox].
  apply handle_client_loop_chunks; try reflexivity; try lia; [exact Hok | constructor].
Qed.

Lemma handle_client_fragmentation_witness :
  let link := {| Link.sock := {| Socket.inbox := [x03; x01; x02; x00; x07; x00; x00; x00;
                                                  x20; x00; x07; x02];
                                 Socket.chunks := [0; 2]%nat;
                                 Socket.outbox := [] |};
                 Link.faults := [None] |} in
  exists self' link1 link2,
    handle_client true SpiSocketServer.init link = Some (LoopEnded, self', link1) /\
    handle_client true SpiSocketServer.init
      {| Link.sock := {| Socket.inbox := Socket.inbox (Link.sock link);
                         Socket.chunks := [4; 0; 0]%nat;
                         Socket.outbox := Socket.outbox (Link.sock link) |};
         Link.faults := [] |}
      = Some (LoopEnded, self', link2) /\
    Socket.outbox (Link.sock link1) = Socket.outbox (Link.sock link2).
Proof.
  apply (handle_client_fragmentation SpiSocketServer.init
           {| Link.sock := {| Socket.inbox := [x03; x01; x02; x00; x07; x00; x00; x00;
                                               x20; x00; x07; x02];
                              Socket.chunks := [0; 2]%nat;
                              Socket.outbox := [] |};
              Link.faults := [None] |} [4; 0; 0]%nat).
  repeat constructor.
Defined.

(** *** A send that raises *)

(** On an unfragmented stream one call of [recv] fetches all that
    [receive_all] asks for. *)
Lemma link_receive_all_whole (link : Link.t) (n : nat) (later : list (option nat)) :
  Socket.chunks (Link.sock link) = [] ->
  Link.faults link = None :: later ->
  (0 < n <= length (Socket.inbox (Link.sock link)))%nat ->
  Link.receive_all link n =
  Some (Link.Returned (Some (take n (Socket.inbox (Link.sock link))))
          {| Link.sock := {| Socket.inbox := drop n (Socket.inbox (Link.sock link));
                             Socket.chunks := [];
                             Socket.outbox := Socket.outbox (Link.sock link) |};
             Link.faults := later |}).
Proof.
  intros Hchunks Hfaults Hn. unfold Link.receive_all.
  cbn [Link.receive_all_loop length].
  replace (0 <? n)%nat with true by (symmetry; apply Nat.ltb_lt; lia).
  unfold Link.recv at 1. rewrite Hfaults. unfold Socket.recv. rewrite Hchunks.
  cbn [tail]. rewrite Nat.sub_0_r.
  destruct (take n (Socket.inbox (Link.sock link))) as [| x chunk] eqn:Etake.
  { apply (f_equal length) in Etake. rewrite length_take in Etake. cbn in Etake. lia. }
  rewrite <- Etake. cbn [app].
  destruct n as [| n]; [lia |]. cbn [Link.receive_all_loop].
  replace (length (take (S n) (Socket.inbox (Link.sock link))) <? S n)%nat with false
    by (symmetry; apply Nat.ltb_ge; rewrite length_take; lia).
  reflexivity.
Qed.

(** X23. A send that raises ends the connection at once. Let
    [self.running] be true and the stream, unfragmented, begin with a
    whole request; let the calls of [recv] that fetch it go through and
    the [sendall] of the reply header raise after [k] bytes. Then the
    request has been dispatched (the server is the one [process_message]
    leaves), [handle_client] is in its [except] clause, only the first
    [k] bytes of the reply header went out, and the rest of the stream,
    with every later request in it, is never read. *)
Theorem handle_client_send_raises
    (self : SpiSocketServer.t) (link : Link.t) (header p rest : bytes)
    (t d l s : Z) (k : nat) (later : list (option nat)) :
  Socket.inbox (Link.sock link) = header ++ p ++ rest ->
  unpack_BBHI_le header = Some (t, d, l, s) ->
  Z.of_nat (length p) = l ->
  Socket.chunks (Link.sock link) = [] ->
  Link.faults link = replicate (match p with [] => 1 | _ :: _ => 2 end) None ++ Some k :: later ->
  exists self' response reply_header link',
    SpiSocketServer.process_message self t d (payload_object p) = Some (self', response) /\
    pack_BBHI_le SpiMessageType.RESPONSE d (Z.of_nat (length response)) s
      = Some reply_header /\
    handle_client true self link = Some (ClientError, self', link') /\
    Socket.outbox (Link.sock link') = Socket.outbox (Link.sock link) ++ take k reply_header /\
    Socket.inbox (Link.sock link') = rest.
Proof.
  intros Hin Hun Hp Hchunks Hfaults.
  pose proof (unpack_BBHI_le_length _ _ Hun) as Hlen.
  destruct (unpack_BBHI_le_ok header Hlen) as (t' & d' & l' & s' & Hun' & _ & Hd & Hl & Hs & _).
  rewrite Hun in Hun'. injection Hun' as <- <- <- <-.
  destruct (process_message_reply self t d (payload_object p))
    as (self' & response & Hproc & Hrlen).
  assert (Hbound : Z.of_nat (length response) <= 65535).
  { rewrite Hrlen. apply reply_length_bound.
    replace (default [] (payload_object p)) with p by (destruct p; reflexivity). lia. }
  destruct (pack_BBHI_le_ok SpiMessageType.RESPONSE d (Z.of_nat (length response)) s)
    as (reply_header & Hpack & _ & _); [unfold SpiMessageType.RESPONSE; lia | lia | lia | lia |].
  assert (Htruthy : truthy (Some header) = true) by (destruct header; [discriminate | reflexivity]).
  assert (Hdl : (if truthy (Some response) then Z.of_nat (length response) else 0)
                = Z.of_nat (length response)) by (destruct response; reflexivity).
  exists self', response, reply_header,
    {| Link.sock := {| Socket.inbox := rest;
                       Socket.chunks := [];
                       Socket.outbox := Socket.outbox (Link.sock link) ++ take k reply_header |};
       Link.faults := later |}.
  split; [exact Hproc |]. split; [exact Hpack |]. split; [| split; reflexivity].
  unfold handle_client. cbn [handle_client_loop negb].
  destruct p as [| x p].
  - cbn [replicate app] in Hfaults. cbn [length] in Hp. subst l. cbn [app] in Hin.
    rewrite (link_receive_all_whole link 8 (Some k :: later) Hchunks Hfaults)
      by (rewrite Hin, length_app; lia).
    rewrite Hin, take_app_length', drop_app_length' by (symmetry; exact Hlen).
    rewrite Htruthy. cbn [negb default from_option id]. rewrite Hun.
    change (0 <? Z.of_nat 0) with false. cbv beta iota. cbn [andb].
    cbn [payload_object] in Hproc. rewrite Hproc.
    cbv beta iota. unfold Link.send_response. cbv zeta. rewrite Hdl, Hpack.
    unfold Link.sendall, Socket.sendall. cbn [Link.faults Link.sock Socket.inbox
      Socket.chunks Socket.outbox]. reflexivity.
  - cbn [replicate app] in Hfaults.
    rewrite (link_receive_all_whole link 8 (None :: Some k :: later) Hchunks Hfaults)
      by (rewrite Hin, length_app; lia).
    rewrite Hin, take_app_length', drop_app_length' by (symmetry; exact Hlen).
    rewrite Htruthy. cbn [negb default from_option id]. rewrite Hun.
    replace (0 <? l) with true by (symmetry; apply Z.ltb_lt; cbn [length] in Hp; lia).
    rewrite (link_receive_all_whole _ (Z.to_nat l) (Some k :: later))
      by (first [reflexivity
                | cbn [Link.sock Socket.inbox]; rewrite length_app; cbn [length] in *; lia]).
    cbn [Link.sock Socket.inbox Socket.outbox].
    replace (Z.to_nat l) with (length (x :: p)) by lia.
    rewrite take_app_length, drop_app_length.
    cbn [truthy negb andb]. cbn [payload_object] in Hproc. rewrite Hproc.
    cbv beta iota. unfold Link.send_response. cbv zeta. rewrite Hdl, Hpack.
    unfold Link.sendall, Socket.sendall. cbn [Link.faults Link.sock Socket.inbox
      Socket.chunks Socket.outbox]. reflexivity.
Qed.

Lemma handle_client_send_raises_witness :
  let link := {| Link.sock :=
                   {| Socket.inbox :=
                        [x03; x01; x02; x00; x07; x00; x00; x00] ++ [x44; x54]
                        ++ [x03; x01; x02; x00; x08; x00; x00; x00; x04; x00];
                      Socket.chunks := [];
                      Socket.outbox := [] |};
                 Link.faults := replicate 2 None ++ Some 0%nat :: [] |} in
  exists self' response reply_header link',
    SpiSocketServer.process_message SpiSocketServer.init 3 1 (payload_object [x44; x54])
      = Some (self', response) /\
    pack_BBHI_le SpiMessageType.RESPONSE 1 (Z.of_nat (length response)) 7
      = Some reply_header /\
    handle_client true SpiSocketServer.init link = Some (ClientError, self', link') /\
    Socket.outbox (Link.sock link') = Socket.outbox (Link.sock link) ++ take 0 reply_header /\
    Socket.inbox (Link.sock link')
      = [x03; x01; x02; x00; x08; x00; x00; x00; x04; x00].
Proof.
  apply (handle_client_send_raises SpiSocketServer.init
           {| Link.sock :=
                {| Socket.inbox :=
                     [x03; x01; x02; x00; x07; x00; x00; x00] ++ [x44; x54]
                     ++ [x03; x01; x02; x00; x08; x00; x00; x00; x04; x00];
                   Socket.chunks := [];
                   Socket.outbox := [] |};
              Link.faults := replicate 2 None ++ Some 0%nat :: [] |}
           [x03; x01; x02; x00; x07; x00; x00; x00] [x44; x54]
           [x03; x01; x02; x00; x08; x00; x00; x00; x04; x00]
           3 1 2 7 0%nat []); reflexivity.
Defined.

(** X21. [send_response] puts on the wire a header that unpacks to
    (0x80, device id, length of the data, sequence number), followed by
    the data, and reads nothing; the request's message type is not part
    of the reply. It raises when the data is longer than 65535 bytes. *)
Theorem send_response_header
    (sock : Socket.t) (msg_type device_id sequence : Z) (data : bytes) :
  0 <= device_id < 256 ->
  0 <= sequence < 4294967296 ->
  (Z.of_nat (length data) <= 65535 ->
   exists header sock',
     send_response sock msg_type device_id sequence data = Some sock' /\
     unpack_BBHI_le header
       = Some (SpiMessageType.RESPONSE, device_id, Z.of_nat (length data), sequence) /\
     Socket.outbox sock' = Socket.outbox sock ++ header ++ data /\
     Socket.inbox sock' = Socket.inbox sock) /\
  (65535 < Z.of_nat (length data) ->
   send_response sock msg_type device_id sequence data = None).
Proof.
  intros Hd Hs. split; intros Hlen.
  - destruct (send_response_ok sock msg_type device_id sequence data Hd Hs Hlen)
      as (header & Hpack & ->).
    destruct (pack_BBHI_le_ok SpiMessageType.RESPONSE device_id (Z.of_nat (length data)) sequence)
      as (header' & Hpack' & _ & Hun); [unfold SpiMessageType.RESPONSE; lia | lia | lia | lia |].
    rewrite Hpack in Hpack'. injection Hpack' as <-.
    eexists header, _. split; [reflexivity |]. split; [exact Hun |]. split; reflexivity.
  - unfold send_response.
    assert (Htruthy : truthy (Some data) = true) by (destruct data; [cbn in Hlen; lia | reflexivity]).
    rewrite Htruthy.
    destruct (pack_BBHI_le _ _ _ _) as [header |] eqn:Hpack; [| reflexivity].
    apply pack_BBHI_le_range in Hpack. lia.
Qed.

Lemma send_response_header_witness :
  let sock := {| Socket.inbox := [x01]; Socket.chunks := []; Socket.outbox := [xff] |} in
  (Z.of_nat (length [x21; x6a]) <= 65535 ->
   exists header sock',
     send_response sock SpiMessageType.TRANSFER 1 7 [x21; x6a] = Some sock' /\
     unpack_BBHI_le header
       = Some (SpiMessageType.RESPONSE, 1, Z.of_nat (length [x21; x6a]), 7) /\
     Socket.outbox sock' = Socket.outbox sock ++ header ++ [x21; x6a] /\
     Socket.inbox sock' = Socket.inbox sock) /\
  (65535 < Z.of_nat (length [x21; x6a]) ->
   send_response sock SpiMessageType.TRANSFER 1 7 [x21; x6a] = None).
Proof.
  apply (send_response_header
           {| Socket.inbox := [x01]; Socket.chunks := []; Socket.outbox := [xff] |}
           SpiMessageType.TRANSFER 1 7 [x21; x6a]); lia.
Defined.

(** ** What a WRITE leaves pending *)

(** X22. On a simulator reached from a fresh one, the frame returned by
    the call after a WRITE decodes to the written address and the value
    now stored under it: the data byte just written, or 0x5A when the
    WRITE was aimed at the read-only address 0x08. *)
Theorem write_echo (fs : list Z) (w g : Z) :
  cmd_of w = 1 ->
  decode (snd (process_spi_frame (fst (process_spi_frame (state_after init fs) w)) g)) =
  (addr_of w, if addr_of w =? REG_DEVID then DEVICE_ID else data_of w).
Proof.
  intros Hc.
  assert (Hdev : registers (state_after init fs) !! REG_DEVID = Some DEVICE_ID)
    by (apply devid_state_after; reflexivity).
  set (s := state_after init fs) in *.
  assert (Hp : pending (fst (process_spi_frame s w)) =
               (addr_of w, if addr_of w =? REG_DEVID then DEVICE_ID else data_of w)).
  { destruct (Z.eqb_spec (addr_of w) REG_DEVID) as [E | E].
    - unfold process_spi_frame, pending; cbn [fst].
      fold (cmd_of w) (addr_of w) (data_of w). rewrite Hc, E. cbn.
      unfold registers_get. rewrite Hdev. reflexivity.
    - apply process_write; assumption. }
  set (s' := fst (process_spi_frame s w)) in *.
  change (snd (process_spi_frame s' g))
    with (build_response (last_response_addr s') (last_response_data s')).
  unfold pending in Hp. injection Hp as -> ->.
  apply decode_build_response.
  - apply land_15_range.
  - destruct (addr_of w =? REG_DEVID); [unfold DEVICE_ID; lia | apply land_255_range].
Qed.

Lemma write_echo_witness :
  decode (snd (process_spi_frame
                 (fst (process_spi_frame (state_after init [0x6554]) 0x617C)) 0)) =
  (addr_of 0x617C, if addr_of 0x617C =? REG_DEVID then DEVICE_ID else data_of 0x617C).
Proof. apply (write_echo [0x6554] 0x617C 0). reflexivity. Defined.

(** ** Pipeline delay *)

(** What a frame leaves pending, in terms of the frames fed so far. *)
Lemma pending_immediate_result (before : list Z) (f : Z) :
  pending (fst (process_spi_frame (state_after init before) f)) = immediate_result before f.
Proof.
  assert (Hdev : registers (state_after init before) !! REG_DEVID = Some DEVICE_ID)
    by (apply devid_state_after; reflexivity).
  unfold immediate_result.
  destruct (Z.eqb_spec (cmd_of f) 0) as [E0 | E0].
  - rewrite (process_read _ f E0). unfold pending; cbn. f_equal.
    destruct (Z.eqb_spec (addr_of f) REG_DEVID) as [E8 | E8].
    + rewrite E8. unfold registers_get. rewrite Hdev. reflexivity.
    + rewrite (registers_get_state_after init before _ E8), init_registers_get.
      apply Z.eqb_neq in E8. rewrite E8. reflexivity.
  - destruct (Z.eqb_spec (cmd_of f) 1) as [E1 | E1].
    + destruct (Z.eqb_spec (addr_of f) REG_DEVID) as [E8 | E8].
      * unfold process_spi_frame, pending; cbn [fst].
        fold (cmd_of f) (addr_of f) (data_of f). rewrite E1, E8. cbn.
        unfold registers_get. rewrite Hdev. reflexivity.
      * apply process_write; assumption.
    + unfold process_spi_frame, pending; cbn [fst].
      fold (cmd_of f) (addr_of f) (data_of f).
      apply Z.eqb_neq in E0, E1. rewrite E0, E1. reflexivity.
Qed.

(** C1. Feed any list of at least two frames to a freshly constructed
    simulator. There is one response per frame; the first response
    decodes to (addr, data) = (0, 0); and for every later position [i]
    the response decodes to the result of the previous frame (position
    [i - 1]): the pending pair that frame left behind, which is, for a
    READ, the address read and the value found there; for a WRITE, the
    address written and the value stored there afterwards; and (0, 0) for
    any other command. *)
Theorem pipeline_delay (fs : list Z) :
  (2 <= length fs)%nat ->
  length (responses init fs) = length fs /\
  (exists r, responses init fs !! 0%nat = Some r /\ decode r = (0, 0)) /\
  (forall (i : nat) f,
     (1 <= i < length fs)%nat ->
     fs !! (i - 1)%nat = Some f ->
     exists r,
       responses init fs !! i = Some r /\
       decode r = pending (fst (process_spi_frame (state_after init (take (i - 1) fs)) f)) /\
       decode r = immediate_result (take (i - 1) fs) f).
Proof.
  intros Hlen. split; [apply responses_length |]. split.
  - destruct fs as [|f0 fs]; [cbn in Hlen; lia |].
    eexists. split; [apply (responses_lookup init (f0 :: fs) 0 f0); reflexivity |].
    cbn [take]. rewrite state_after_nil. vm_compute. reflexivity.
  - intros i f [Hi1 Hi2] Hprev.
    destruct (lookup_lt_is_Some_2 fs i Hi2) as [g Hg].
    eexists. split; [apply (responses_lookup init fs i g Hg) |].
    destruct i as [|i]; [lia |].
    replace (S i - 1)%nat with i in * by lia.
    rewrite <- pending_immediate_result.
    rewrite (state_after_take_S init fs i f Hprev).
    set (s' := fst (process_spi_frame (state_after init (take i fs)) f)).
    assert (Hwf : wf s').
    { apply process_spi_frame_wf, wf_state_after, wf_init. }
    destruct Hwf as (Ha & Hd & _).
    split; apply decode_build_response; assumption.
Qed.

Lemma pipeline_delay_witness :
  let fs := [0x6554; 0x2400; 0x617C; 0xC000; 0x2000] in
  length (responses init fs) = length fs /\
  (exists r, responses init fs !! 0%nat = Some r /\ decode r = (0, 0)) /\
  (forall (i : nat) f,
     (1 <= i < length fs)%nat ->
     fs !! (i - 1)%nat = Some f ->
     exists r,
       responses init fs !! i = Some r /\
       decode r = pending (fst (process_spi_frame (state_after init (take (i - 1) fs)) f)) /\
       decode r = immediate_result (take (i - 1) fs) f).
Proof. apply (pipeline_delay [0x6554; 0x2400; 0x617C; 0xC000; 0x2000]). cbn. lia. Defined.
